(** * Access-control pipeline of the Uniform / NextAuth starter

    A shallow embedding of the server-side composition access-control
    pipeline:

    - [createAccessControlEnhancer] (the access-control enhancer, found in
      src/uniform/resolve.tsx and exported by src/uniform/enhancers/index.ts),
      the two data enhancers that annotate every component with
      [_authState] and [_accessControl];
    - [filterUnauthorizedComponents] (same file), the post-processing pass
      that removes denied components from their slots;
    - the Canvas-mode detection of the three page handlers
      (app/[locale]/page.tsx, app/[locale]/cms/[[...path]]/page.tsx,
      app/[locale]/cms-protected/[[...path]]/page.tsx) and of
      [getCanvasMode] (src/lib/canvas-helpers.ts).

    JavaScript objects used as string-keyed maps ([parameters], [slots],
    the untyped part of [data]) are [gmap string _]; optional fields are
    [option]; the in-place mutation of the composition is modelled by
    returning the updated tree (a composition is a JSON tree owned by one
    request, so no node is shared). *)

From stdpp Require Import gmap strings list fin_maps.

Local Open Scope string_scope.
Local Open Scope nat_scope.
Local Open Scope list_scope.

#[local] Set Warnings "-register-all".

(** ** Values *)

(** Parameter values and untyped data come from the JSON response of the
    content API. *)
Inductive JsonValue :=
  | JNull
  | JBool (b : bool)
  | JNumber (n : Z)
  | JString (s : string)
  | JArray (l : list JsonValue)
  | JObject (l : list (string * JsonValue)).

(** JavaScript truthiness of a possibly-[undefined] JSON value, as used by
    [!accessType]. *)
Definition truthy (v : option JsonValue) : bool :=
  match v with
  | None => false
  | Some JNull => false
  | Some (JBool b) => b
  | Some (JNumber n) => negb (n =? 0)%Z
  | Some (JString s) => negb (String.eqb s "")
  | Some (JArray _) => true
  | Some (JObject _) => true
  end.

(** [v === 'lit'] for a possibly-[undefined] JSON value. *)
Definition strictEqString (v : option JsonValue) (lit : string) : bool :=
  match v with
  | Some (JString s) => String.eqb s lit
  | _ => false
  end.

(** Truthiness of an optional boolean flag ([undefined | boolean]). *)
Definition truthyFlag (b : option bool) : bool :=
  match b with
  | Some true => true
  | _ => false
  end.

(** [a && b] and [a || b] on [undefined | boolean] operands: JavaScript
    returns one of the operands, not a coerced boolean. *)
Definition jsAnd (a b : option bool) : option bool :=
  if truthyFlag a then b else a.

Definition jsOr (a b : option bool) : option bool :=
  if truthyFlag a then a else b.

(** ** Sessions (src/types/next-auth.d.ts) *)

Record User := {
  name : option string;
  email : option string;
  image : option string;
  provider : option string;
  accountId : option string;
}.

(** [Session.user] is a required object in the module augmentation. *)
Record Session := {
  user : User;
  expires : string;
}.

(** ** Enhancer data (the access-control enhancer) *)

Inductive Reason :=
  | canvas_mode
  | everyone
  | requires_auth
  | anonymous_only
  | authorized.

Record AccessControlResult := {
  allowed : bool;
  reason : Reason;
}.

Record EnhancedAuthState := {
  isAuthenticated : bool;
  authUser : option User;   (* the [user] field; [None] is [null] *)
}.

Record EnhancedComponentData := {
  _authState : option EnhancedAuthState;
  _accessControl : option AccessControlResult;
  otherData : gmap string JsonValue;   (* [[key: string]: unknown] *)
}.

Record AccessControlEnhancerContext := {
  preview : option bool;
  isCanvasMode : option bool;
  session : option Session;   (* [None] is [null] or [undefined] *)
}.

(** ** Components *)

Record ComponentParameter := {
  paramType : string;
  value : option JsonValue;
}.

(** A component instance; the root composition has the same shape
    ([RootComponentInstance | ComponentInstance]). *)
Inductive ComponentInstance := mkComponent {
  type : string;
  parameters : option (gmap string ComponentParameter);
  slots : option (gmap string (list ComponentInstance));
  data : option EnhancedComponentData;
}.

(** [component.parameters?.accessType?.value] *)
Definition accessTypeValue (component : ComponentInstance) : option JsonValue :=
  p ← parameters component; a ← p !! "accessType"; value a.

(** [component.slots?.[slotName]] *)
Definition slotOf (slotName : string) (component : ComponentInstance)
  : option (list ComponentInstance) :=
  s ← slots component; s !! slotName.

(** [component.data?._accessControl] *)
Definition accessControlOf (component : ComponentInstance) : option AccessControlResult :=
  d ← data component; _accessControl d.

(** [component.data?._authState] *)
Definition authStateOf (component : ComponentInstance) : option EnhancedAuthState :=
  d ← data component; _authState d.

(** ** The filter ([filterUnauthorizedComponents]) *)

(** The predicate passed to [.filter(...)] inside [filterSlot]. *)
Definition filterPredicate (component : ComponentInstance) : bool :=
  match accessControlOf component with
  | None => true                         (* [if (!accessControl) return true] *)
  | Some accessControl => negb (bool_decide (allowed accessControl = false))
                                         (* [accessControl.allowed !== false] *)
  end.

(** The callback passed to [.map(...)] inside [filterSlot]: every slot of
    the kept component is replaced by its filtered version.  The inner
    [flat_map] is [filterSlot] itself, written so that the recursion is
    structural; [filterSlot_flat_map] below gives it the shape of the source. *)
Fixpoint filterChildSlots (component : ComponentInstance) : ComponentInstance :=
  {| type := type component;
     parameters := parameters component;
     slots :=
       (fun m : gmap string (list ComponentInstance) =>
          (fun slot =>
             flat_map (fun c => if filterPredicate c then [filterChildSlots c] else [])
                      slot) <$> m) <$> slots component;
     data := data component |}.

(** [components.filter(pred).map(recurse)].  A slot is declared
    [ComponentInstance[]], so the [Array.isArray(slot)] guard around each
    call always passes. *)
Definition filterSlot (components : list ComponentInstance) : list ComponentInstance :=
  map filterChildSlots (List.filter filterPredicate components).

(** The body of [filterUnauthorizedComponents]: every slot of the root is
    replaced by [filterSlot] of it; a root without [slots] is untouched. *)
Definition filterUnauthorizedComponents (composition : ComponentInstance)
  : ComponentInstance :=
  match slots composition with
  | Some s =>
      {| type := type composition;
         parameters := parameters composition;
         slots := Some (filterSlot <$> s);
         data := data composition |}
  | None => composition
  end.

(** ** The enhancer ([createAccessControlEnhancer]) *)

(** [!!o] for an optional object: an object is always truthy. *)
Definition truthyObject {A} (o : option A) : bool :=
  match o with
  | Some _ => true
  | None => false
  end.

(** [o || null] for an optional object. *)
Definition orNull {A} (o : option A) : option A :=
  if truthyObject o then o else None.

(** The two resolvers registered with [.data('_authState', ...)] and
    [.data('_accessControl', ...)]. *)
Record EnhancerBuilder := {
  authStateData : AccessControlEnhancerContext → EnhancedAuthState;
  accessControlData :
    ComponentInstance → AccessControlEnhancerContext → AccessControlResult;
}.

Definition createAccessControlEnhancer : EnhancerBuilder :=
  {| authStateData := fun context =>
       {| isAuthenticated := truthyObject (user <$> session context);
          authUser := orNull (user <$> session context) |};
     accessControlData := fun component context =>
       if truthyFlag (isCanvasMode context) then
         {| allowed := true; reason := canvas_mode |}
       else
         let accessType := accessTypeValue component in
         if negb (truthy accessType) || strictEqString accessType "everyone" then
           {| allowed := true; reason := everyone |}
         else
           let isAuthenticated := truthyObject (user <$> session context) in
           if strictEqString accessType "users" && negb isAuthenticated then
             {| allowed := false; reason := requires_auth |}
           else if strictEqString accessType "anonymous" && isAuthenticated then
             {| allowed := false; reason := anonymous_only |}
           else
             {| allowed := true; reason := authorized |} |}.

(** [component.data[...] = ...] for the two registered keys; a missing
    [data] object is created, every other key is left as it is. *)
Definition setEnhancedData (a : EnhancedAuthState) (r : AccessControlResult)
    (d : option EnhancedComponentData) : option EnhancedComponentData :=
  Some {| _authState := Some a;
          _accessControl := Some r;
          otherData := match d with Some d => otherData d | None => ∅ end |}.

(** Modelled from the spec: [enhance] of the @uniformdev/canvas SDK, which
    is not part of the repository.  Following section 4.1, it visits the
    root and every descendant across all slots, writes the result of each
    registered data resolver onto the node's [data], and neither removes
    nor reorders nodes. *)
Fixpoint enhance (enhancers : EnhancerBuilder)
    (context : AccessControlEnhancerContext) (composition : ComponentInstance)
  : ComponentInstance :=
  {| type := type composition;
     parameters := parameters composition;
     slots :=
       (fun m : gmap string (list ComponentInstance) =>
          (fun slot => map (enhance enhancers context) slot) <$> m)
       <$> slots composition;
     data := setEnhancedData (authStateData enhancers context)
                             (accessControlData enhancers composition context)
                             (data composition) |}.

(** ** Canvas-mode detection *)

(** A value of [searchParams]: [string | string[]]. *)
Inductive SearchParamValue :=
  | ParamString (s : string)
  | ParamArray (l : list string).

(** [searchParams?.is_incontext_editing_mode === 'true'] *)
Definition isIncontextEditing (searchParams : option (gmap string SearchParamValue))
  : bool :=
  match searchParams ≫= (.!! "is_incontext_editing_mode") with
  | Some (ParamString s) => String.eqb s "true"
  | _ => false
  end.

(** app/[locale]/cms/[[...path]]/page.tsx:
    [const isCanvasMode = isDraftMode || isIncontextEditing] *)
Definition CMSPage_isCanvasMode (isDraftMode : bool)
    (searchParams : option (gmap string SearchParamValue)) : bool :=
  isDraftMode || isIncontextEditing searchParams.

(** app/[locale]/page.tsx:
    [isDraftMode || searchParams?.is_incontext_editing_mode === "true"] *)
Definition HomePage_isCanvasMode (isDraftMode : bool)
    (searchParams : option (gmap string SearchParamValue)) : bool :=
  isDraftMode || isIncontextEditing searchParams.

(** The argument of [getCanvasMode] (fields read by [isCanvasMode]). *)
Record CanvasContext := {
  isContextualEditing : option bool;
  isDraftMode : option bool;
}.

(** src/lib/canvas-helpers.ts, the [isCanvasMode] field of the result:
    [isContextualEditing && (isDraftMode || serverDraftMode)], with the
    fields [undefined] when [context] is. *)
Definition getCanvasMode (context : option CanvasContext) (serverDraftMode : bool)
  : option bool :=
  jsAnd (context ≫= isContextualEditing)
        (jsOr (context ≫= isDraftMode) (Some serverDraftMode)).

(** app/[locale]/cms-protected/[[...path]]/page.tsx: the flag returned by
    [getDisplayUser(routeContext)], where both [routeContext.isDraftMode]
    and [serverDraftMode] are read from [draftMode()]. *)
Definition ProtectedCMSPage_isCanvasMode (draft : bool)
    (searchParams : option (gmap string SearchParamValue)) : option bool :=
  getCanvasMode
    (Some {| isContextualEditing := Some (isIncontextEditing searchParams);
             isDraftMode := Some draft |})
    draft.

(** ** The page handlers' access-control step *)

(** The block shared by the three page handlers:
    [await enhance({...}); if (!isCanvasMode) filterUnauthorizedComponents(composition)]. *)
Definition enhanceAndFilter (draft : bool) (canvasMode : option bool)
    (session : option Session) (composition : option ComponentInstance)
  : option ComponentInstance :=
  match composition with
  | Some composition =>
      let enhanced :=
        enhance createAccessControlEnhancer
          {| preview := Some draft; isCanvasMode := canvasMode; session := session |}
          composition in
      Some (if negb (truthyFlag canvasMode)
            then filterUnauthorizedComponents enhanced
            else enhanced)
  | None => None
  end.

Definition CMSPage_composition (draft : bool)
    (searchParams : option (gmap string SearchParamValue))
    (session : option Session) (composition : option ComponentInstance) :=
  enhanceAndFilter draft (Some (CMSPage_isCanvasMode draft searchParams))
                   session composition.

Definition HomePage_composition (draft : bool)
    (searchParams : option (gmap string SearchParamValue))
    (session : option Session) (composition : option ComponentInstance) :=
  enhanceAndFilter draft (Some (HomePage_isCanvasMode draft searchParams))
                   session composition.

Definition ProtectedCMSPage_composition (draft : bool)
    (searchParams : option (gmap string SearchParamValue))
    (session : option Session) (composition : option ComponentInstance) :=
  enhanceAndFilter draft (ProtectedCMSPage_isCanvasMode draft searchParams)
                   session composition.

(** ** Walking a composition *)

(** The number of components of a composition, the measure behind
    induction on compositions. *)
Fixpoint nodeCount (c : ComponentInstance) : nat :=
  S (match slots c with
     | None => 0
     | Some m => map_fold (fun _ cs acc => list_sum (map nodeCount cs) + acc) 0 m
     end).

(** [childOf c p]: [c] is an element of one of the slot arrays of [p]. *)
Inductive childOf (c p : ComponentInstance) : Prop :=
  | childOf_slot (s : gmap string (list ComponentInstance))
                 (slotName : string) (cs : list ComponentInstance) :
      slots p = Some s → s !! slotName = Some cs → c ∈ cs → childOf c p.

(** [descendantOf c p]: [c] occurs strictly below [p]. *)
Inductive descendantOf (c : ComponentInstance) : ComponentInstance → Prop :=
  | descendant_child p : childOf c p → descendantOf c p
  | descendant_step m p : descendantOf c m → childOf m p → descendantOf c p.

(** [inTree c root]: [c] is the root or occurs below it. *)
Definition inTree (c root : ComponentInstance) : Prop :=
  c = root ∨ descendantOf c root.

(** [keptBelow c p]: [c] occurs below [p], and [c] as well as every
    component between [p] and [c] passes the filter predicate. *)
Inductive keptBelow (c : ComponentInstance) : ComponentInstance → Prop :=
  | kept_child p : childOf c p → filterPredicate c = true → keptBelow c p
  | kept_step m p :
      keptBelow c m → childOf m p → filterPredicate m = true → keptBelow c p.

(** The composition with every [data] object dropped: what is left is the
    shape of the tree (types, parameters, slots and their order). *)
Fixpoint skeleton (c : ComponentInstance) : ComponentInstance :=
  {| type := type c;
     parameters := parameters c;
     slots :=
       (fun m : gmap string (list ComponentInstance) =>
          (fun slot => map skeleton slot) <$> m) <$> slots c;
     data := None |}.

(** [denied c]: the component carries an access decision with
    [allowed == false]. *)
Definition denied (c : ComponentInstance) : Prop :=
  ∃ r, accessControlOf c = Some r ∧ allowed r = false.

#[global] Instance denied_dec c : Decision (denied c).
Proof.
  unfold denied. destruct (accessControlOf c) as [r|].
  - destruct (allowed r) eqn:Hr.
    + right. intros (r' & Heq & Hr'). injection Heq as <-. congruence.
    + left. eauto.
  - right. intros (r & Heq & _). discriminate.
Defined.

(** [child_in_slot k]: the goal [childOf c p], for closed [c] and [p], by
    looking [c] up at the head of slot [k] of [p]. *)
Ltac child_in_slot k :=
  eapply (childOf_slot _ _ _ k);
  [vm_compute; reflexivity | vm_compute; reflexivity | vm_compute; left].

(** [not_in_literal]: the goal [s ∉ l] for closed strings. *)
Ltac not_in_literal :=
  rewrite list_elem_of_In; simpl; intuition discriminate.

(** ** Sample compositions (the scenarios of the specification) *)

Definition accessTypeParam (v : JsonValue) : gmap string ComponentParameter :=
  {[ "accessType" := {| paramType := "select"; value := Some v |} ]}.

Definition alice : Session :=
  {| user := {| name := Some "alice"; email := None; image := None;
                provider := Some "credentials"; accountId := None |};
     expires := "2030-01-01T00:00:00.000Z" |}.

Definition nodeX : ComponentInstance :=
  mkComponent "hero" (Some (accessTypeParam (JString "users"))) None None.

Definition nodeB : ComponentInstance :=
  mkComponent "contentBlock" (Some (accessTypeParam (JString "everyone"))) None None.

Definition nodeA : ComponentInstance :=
  mkComponent "section" (Some (accessTypeParam (JString "anonymous")))
              (Some {[ "inner" := [nodeB] ]}) None.

Definition nodeLegacy : ComponentInstance :=
  mkComponent "banner" (Some (accessTypeParam (JString "premium"))) None None.

(** [nodeLegacy] with the [accessType] parameter absent. *)
Definition nodeLegacyUnset : ComponentInstance :=
  mkComponent "banner" (Some ∅) None None.

Definition nodePlain : ComponentInstance :=
  mkComponent "footer" None None None.

(** root → slot "main" → [nodeX] *)
Definition scenarioA : ComponentInstance :=
  mkComponent "page" None (Some {[ "main" := [nodeX] ]}) None.

(** root → slot "s" → [nodeA → slot "inner" → [nodeB]] *)
Definition scenarioD : ComponentInstance :=
  mkComponent "page" None (Some {[ "s" := [nodeA; nodePlain] ]}) None.

Definition anonymousContext : AccessControlEnhancerContext :=
  {| preview := Some false; isCanvasMode := Some false; session := None |}.

Definition aliceContext : AccessControlEnhancerContext :=
  {| preview := Some false; isCanvasMode := Some false; session := Some alice |}.

Definition canvasContext : AccessControlEnhancerContext :=
  {| preview := Some true; isCanvasMode := Some true; session := None |}.

(** * Further code of the repository *)

(** ** JavaScript strings *)

(** [haystack.startsWith(prefix)] *)
Definition startsWith (haystack prefix : string) : bool :=
  String.prefix prefix haystack.

(** [haystack.includes(needle)] *)
Fixpoint includes (haystack needle : string) : bool :=
  String.prefix needle haystack
  || match haystack with
     | EmptyString => false
     | String _ rest => includes rest needle
     end.

(** Truthiness of a possibly-absent string: [undefined], [null] and the
    empty string are falsy. *)
Definition truthyString (s : option string) : bool :=
  match s with
  | Some s => negb (String.eqb s "")
  | None => false
  end.

(** [a || b] where [b] may be absent too. *)
Definition orString (a b : option string) : option string :=
  if truthyString a then a else b.

(** [a || 'literal'] *)
Definition orDefault (a : option string) (literal : string) : string :=
  match a with
  | Some s => if truthyString a then s else literal
  | None => literal
  end.

(** ** Component resolution (src/uniform/resolve.tsx, [resolveComponent]) *)

(** A registered mapping: the Uniform type and the React component, the
    latter by name. *)
Record ResolveComponentResultWithType := {
  mappingType : string;
  mappingComponent : string;
}.

(** What [resolveComponent] returns: [{ component: DefaultNotImplementedComponent }]
    or the mapping that was found. *)
Inductive ResolveComponentResult :=
  | DefaultNotImplementedComponent
  | ResolvedMapping (mapping : ResolveComponentResultWithType).

(** The [for] loop over [Object.keys(typedMappings)]: the entries of the
    mappings module in key order, each value possibly [undefined]; the
    first entry whose [type] is the component's wins ([break]). *)
Fixpoint resolveComponentLoop
    (entries : list (string * option ResolveComponentResultWithType))
    (componentType : string) : ResolveComponentResult :=
  match entries with
  | [] => DefaultNotImplementedComponent
  | (_, mapping) :: rest =>
      match mapping with
      | Some m =>
          if String.eqb (mappingType m) componentType
          then ResolvedMapping m
          else resolveComponentLoop rest componentType
      | None => resolveComponentLoop rest componentType
      end
  end.

Definition resolveComponent
    (mappings : list (string * option ResolveComponentResultWithType))
    (component : ComponentInstance) : ResolveComponentResult :=
  resolveComponentLoop mappings (type component).

(** ** Component helpers (src/lib/component-helpers.ts) *)

Inductive LucideIcon := Lock | Users | Globe.

Record AccessInfo := {
  icon : LucideIcon;
  label : string;
  color : string;
}.

(** [typeof accessTypeValue === 'string' ? accessTypeValue : 'everyone'] *)
Definition getAccessType (component : ComponentInstance) : string :=
  match accessTypeValue component with
  | Some (JString s) => s
  | _ => "everyone"
  end.

Definition getAccessInfo (accessType : string) : AccessInfo :=
  if String.eqb accessType "anonymous" then
    {| icon := Globe; label := "Anonymous Only";
       color := "bg-blue-500/10 text-blue-700 border-blue-200" |}
  else if String.eqb accessType "users" then
    {| icon := Lock; label := "Authenticated Users";
       color := "bg-purple-500/10 text-purple-700 border-purple-200" |}
  else
    {| icon := Users; label := "Everyone";
       color := "bg-green-500/10 text-green-700 border-green-200" |}.

(** [component.data?._authState?.isAuthenticated ?? false] *)
Definition getAuthState (component : ComponentInstance) : bool :=
  match authStateOf component with
  | Some a => isAuthenticated a
  | None => false
  end.

(** ** The display user (src/lib/canvas-helpers.ts, [getDisplayUser]) *)

Definition MOCK_USER : User :=
  {| name := Some "Jane Editor";
     email := Some "editor@example.com";
     image := None;
     provider := Some "Canvas Preview";
     accountId := Some "mock-12345" |}.

(** The argument of [getDisplayUser]: the fields of [CanvasContext] and
    [path]. *)
Record DisplayUserContext := {
  canvasFields : CanvasContext;
  path : option string;
}.

(** [path?.includes('cms-protected') || false] *)
Definition isOnProtectedRoute (context : option DisplayUserContext) : bool :=
  match context ≫= path with
  | Some p => includes p "cms-protected"
  | None => false
  end.

Record DisplayUser := {
  displayUser : option User;
  isShowingMockUser : option bool;
  realSession : option Session;
  displayIsCanvasMode : option bool;        (* [...canvasInfo] *)
  displayIsOnProtectedRoute : bool;
}.

(** [session] is the result of [getServerSession(authOptions)],
    [serverDraftMode] the one of [draftMode()]. *)
Definition getDisplayUser (context : option DisplayUserContext)
    (serverDraftMode : bool) (session : option Session) : DisplayUser :=
  let canvasMode := getCanvasMode (canvasFields <$> context) serverDraftMode in
  let protectedRoute := isOnProtectedRoute context in
  let shouldShowMockUser :=
    jsAnd (jsAnd canvasMode (Some protectedRoute))
          (Some (negb (truthyObject (user <$> session)))) in
  {| displayUser :=
       if truthyObject (user <$> session) then user <$> session
       else if truthyFlag shouldShowMockUser then Some MOCK_USER else None;
     isShowingMockUser := shouldShowMockUser;
     realSession := session;
     displayIsCanvasMode := canvasMode;
     displayIsOnProtectedRoute := protectedRoute |}.

(** ** Route handling of the page handlers *)

(** The response of [retrieveRoute]: a redirect with its optional target,
    a composition response with its optional composition, or anything
    else (not found). *)
Inductive RouteGetResponse :=
  | RouteRedirect (targetUrl : option string)
  | RouteComposition (composition : option ComponentInstance)
  | RouteNotFound.

(** What a page handler ends with: [redirect(url)], [notFound()], or the
    content it renders. *)
Inductive PageResult (A : Type) :=
  | PageRedirect (url : string)
  | PageNotFound
  | PageRender (content : A).
Arguments PageRedirect {A} url.
Arguments PageNotFound {A}.
Arguments PageRender {A} content.

(** [params.path]: [string | string[]]. *)
Inductive PathParam :=
  | PathString (s : string)
  | PathArray (l : list string).

(** Truthiness of [params?.path]: an array is truthy even when empty. *)
Definition truthyPath (p : option PathParam) : bool :=
  match p with
  | Some (PathString s) => negb (String.eqb s "")
  | Some (PathArray _) => true
  | None => false
  end.

(** [Array.isArray(path) ? path : [path]] *)
Definition pathSegments (p : PathParam) : list string :=
  match p with
  | PathArray l => l
  | PathString s => [s]
  end.

(** [(typeof localeParam === 'string' ? localeParam : undefined) || 'en'] *)
Definition CMSPage_locale (searchParams : option (gmap string SearchParamValue))
  : string :=
  orDefault match searchParams ≫= (.!! "locale") with
            | Some (ParamString s) => Some s
            | _ => None
            end "en".

(** The [path] of [modifiedProps]:
    [params?.path ? ['cms', ...segments] : ['cms']]. *)
Definition CMSPage_modifiedPath (p : option PathParam) : list string :=
  match p with
  | Some q => if truthyPath p then "cms" :: pathSegments q else ["cms"]
  | None => ["cms"]
  end.

(** [`/${locale}/cms${params?.path ? '/' + (joined path) : ''}`] *)
Definition CMSPage_currentPath (locale : string) (p : option PathParam) : string :=
  ("/" ++ locale ++ "/cms"
   ++ match p with
      | Some q =>
          if truthyPath p
          then "/" ++ match q with
                      | PathArray l => String.concat "/" l
                      | PathString s => s
                      end
          else ""
      | None => ""
      end)%string.

(** app/[locale]/cms/[[...path]]/page.tsx, [CMSPage], from the route to
    the composition handed to [UniformComposition].  [route] is what
    [retrieveRoute] returned and [session] what [getServerSession]
    returned; [encodeURIComponent] is the JavaScript built-in. *)
Definition CMSPage (encodeURIComponent : string → string)
    (p : option PathParam) (searchParams : option (gmap string SearchParamValue))
    (draft : bool) (session : option Session) (route : RouteGetResponse)
  : PageResult (option ComponentInstance) :=
  let locale := CMSPage_locale searchParams in
  let canvasMode := CMSPage_isCanvasMode draft searchParams in
  match route with
  | RouteRedirect redirectTarget =>
      match redirectTarget with
      | Some target => if truthyString redirectTarget then PageRedirect target
                       else PageNotFound
      | None => PageNotFound
      end
  | RouteNotFound => PageNotFound
  | RouteComposition composition =>
      let authenticated := truthyObject (user <$> session) in
      let accessType :=
        match composition ≫= accessTypeValue with
        | Some (JString s) => s
        | _ => "everyone"
        end in
      let currentPath := CMSPage_currentPath locale p in
      if negb canvasMode && String.eqb accessType "users" && negb authenticated then
        PageRedirect ("/" ++ locale ++ "/access-denied?reason=users&from="
                      ++ encodeURIComponent currentPath)%string
      else if negb canvasMode && String.eqb accessType "anonymous" && authenticated then
        PageRedirect ("/" ++ locale ++ "/access-denied?reason=anonymous&from="
                      ++ encodeURIComponent currentPath)%string
      else
        PageRender (CMSPage_composition draft searchParams session composition)
  end.

(** app/[locale]/page.tsx, [HomePage]. *)
Definition HomePage (searchParams : option (gmap string SearchParamValue))
    (draft : bool) (session : option Session) (route : RouteGetResponse)
  : PageResult (option ComponentInstance) :=
  match route with
  | RouteRedirect redirectTarget =>
      match redirectTarget with
      | Some target => if truthyString redirectTarget then PageRedirect target
                       else PageNotFound
      | None => PageNotFound
      end
  | RouteNotFound => PageNotFound
  | RouteComposition composition =>
      PageRender (HomePage_composition draft searchParams session composition)
  end.

(** What [ProtectedCMSPage] renders: the composition and the user block. *)
Record ProtectedView := {
  viewComposition : option ComponentInstance;
  viewDisplayUser : option User;
  viewIsShowingMockUser : option bool;
}.

(** app/[locale]/cms-protected/[[...path]]/page.tsx, [ProtectedCMSPage]. *)
Definition ProtectedCMSPage (searchParams : option (gmap string SearchParamValue))
    (draft : bool) (session : option Session) (route : RouteGetResponse)
  : PageResult ProtectedView :=
  let routeContext :=
    {| canvasFields := {| isContextualEditing := Some (isIncontextEditing searchParams);
                          isDraftMode := Some draft |};
       path := Some "/cms-protected" |} in
  let display := getDisplayUser (Some routeContext) draft session in
  match route with
  | RouteRedirect redirectTarget =>
      match redirectTarget with
      | Some target => if truthyString redirectTarget then PageRedirect target
                       else PageNotFound
      | None => PageNotFound
      end
  | RouteNotFound => PageNotFound
  | RouteComposition composition =>
      if negb (truthyObject (user <$> realSession display))
         && negb (truthyFlag (displayIsCanvasMode display))
      then PageRedirect "/login"
      else
        PageRender
          {| viewComposition :=
               enhanceAndFilter draft (displayIsCanvasMode display)
                                (realSession display) composition;
             viewDisplayUser := displayUser display;
             viewIsShowingMockUser := isShowingMockUser display |}
  end.

(** ** Locale helper (uniform/l18n/localeHelper.ts) *)

Module LocaleHelper.
Section WithLocales.

(** [i18n.locales] and [i18n.defaultLocale] of locales.json, which is not
    among the sources. *)
Variable locales : list string.
Variable defaultLocale : string.

(** [segments.some(segment => locales.includes(segment))] *)
Definition isLocaleInPath (p : PathParam) : bool :=
  existsb (fun segment => existsb (String.eqb segment) locales) (pathSegments p).

Definition formatPath (p : option PathParam) (locale : option string) : PathParam :=
  let localeForPath := orDefault locale defaultLocale in
  match p with
  | Some q =>
      if negb (truthyPath p) then PathString localeForPath
      else if isLocaleInPath q then q
      else match q with
           | PathArray l => PathArray (localeForPath :: l)
           | PathString s => PathString (localeForPath ++ "/" ++ s)%string
           end
  | None => PathString localeForPath
  end.

(** The path [CMSPage] asks Uniform for:
    [retrieveRoute(modifiedProps, locale)] formats the path of
    [modifiedProps] through [getUpdatedParams]. *)
Definition CMSPage_uniformPath (p : option PathParam)
    (searchParams : option (gmap string SearchParamValue)) : PathParam :=
  formatPath (Some (PathArray (CMSPage_modifiedPath p)))
             (Some (CMSPage_locale searchParams)).

End WithLocales.
End LocaleHelper.

(** ** Authentication callbacks (src/auth.ts) *)

Module Auth.

(** The token, with the fields the module augmentation adds. *)
Record JWT := {
  tokenProvider : option string;      (* [token.provider] *)
  tokenAccountId : option string;     (* [token.accountId] *)
  profileImage : option string;
  claims : gmap string JsonValue;     (* name, email, sub, ... *)
}.

Record Account := {
  accountProvider : string;           (* [account.provider] *)
  providerAccountId : string;
}.

Record Profile := {
  profilePicture : option string;     (* [profile.image] *)
  avatar_url : option string;
}.

(** [callbacks.jwt]; [account] and [profile] are present on sign-in only. *)
Definition jwt (token : JWT) (account : option Account) (profile : option Profile)
  : JWT :=
  let token1 :=
    match account with
    | Some a => {| tokenProvider := Some (accountProvider a);
                   tokenAccountId := Some (providerAccountId a);
                   profileImage := profileImage token;
                   claims := claims token |}
    | None => token
    end in
  match profile with
  | Some p => {| tokenProvider := tokenProvider token1;
                 tokenAccountId := tokenAccountId token1;
                 profileImage := orString (profilePicture p) (avatar_url p);
                 claims := claims token1 |}
  | None => token1
  end.

(** [callbacks.session]; [session.user] is always there. *)
Definition session (s : Session) (token : JWT) : Session :=
  {| user := {| name := name (user s);
                email := email (user s);
                image := orString (orString (image (user s)) (profileImage token)) None;
                provider := tokenProvider token;
                accountId := tokenAccountId token |};
     expires := expires s |}.

End Auth.

(** ** Middleware (middleware.ts) *)

Module Middleware.

Definition locales : list string := ["en"; "fr"].
Definition defaultLocale : string := "en".

Definition NON_LOCALIZED_ROUTES : list string :=
  ["/api"; "/_next"; "/login"; "/playground"].

Definition shouldSkipLocale (pathname : string) : bool :=
  existsb (fun route => startsWith pathname route) NON_LOCALIZED_ROUTES.

(** [NextResponse.redirect(new URL(path, req.url))], by the path it
    redirects to, or [NextResponse.next()]. *)
Inductive Response :=
  | Redirect (toPathname : string)
  | Next.

Definition middlewareHandler (pathname : string) : Response :=
  let pathnameIsMissingLocale :=
    forallb (fun locale =>
               negb (startsWith pathname ("/" ++ locale ++ "/")%string)
               && negb (String.eqb pathname ("/" ++ locale)%string))
            locales in
  if String.eqb pathname "/" then Redirect ("/" ++ defaultLocale)%string
  else if pathnameIsMissingLocale && negb (shouldSkipLocale pathname) then
    Redirect ("/" ++ defaultLocale ++ pathname)%string
  else Next.

(** [searchParams.get(name)]: the first value under [name], or [null]. *)
Fixpoint searchParamsGet (searchParams : list (string * string)) (key : string)
  : option string :=
  match searchParams with
  | [] => None
  | (k, v) :: rest => if String.eqb k key then Some v else searchParamsGet rest key
  end.

(** The [authorized] callback.  [previewSecret] is
    [process.env.UNIFORM_PREVIEW_SECRET], [draftModeCookie] the value of
    the [__prerender_bypass] cookie, [token] the decoded token or [null]. *)
Definition authorized (previewSecret : option string)
    (pathname : string) (searchParams : list (string * string))
    (draftModeCookie : option string) (token : option Auth.JWT) : bool :=
  let isCanvasEditing :=
    match searchParamsGet searchParams "is_incontext_editing_mode" with
    | Some v => String.eqb v "true"
    | None => false
    end in
  let hasPreviewSecret :=
    match searchParamsGet searchParams "secret", previewSecret with
    | Some given, Some expected => String.eqb given expected
    | _, _ => false       (* [null === undefined] is false *)
    end in
  let hasDraftMode := truthyObject draftModeCookie in
  if hasDraftMode || (isCanvasEditing && hasPreviewSecret) then true
  else if includes pathname "/cms-protected" then truthyObject token
  else true.

End Middleware.

(** ** The policy along a path *)

(** [allowedBelow context c p]: [c] occurs below [p], and the access
    decision of the enhancer under [context] allows [c] and every component
    between [p] and [c]. *)
Inductive allowedBelow (context : AccessControlEnhancerContext)
    (c : ComponentInstance) : ComponentInstance → Prop :=
  | allowed_child p :
      childOf c p →
      allowed (accessControlData createAccessControlEnhancer c context) = true →
      allowedBelow context c p
  | allowed_step m p :
      allowedBelow context c m → childOf m p →
      allowed (accessControlData createAccessControlEnhancer m context) = true →
      allowedBelow context c p.

(** * Structural facts *)

Lemma nodeCount_eq c :
  nodeCount c =
  S (match slots c with
     | None => 0
     | Some m => map_fold (fun _ cs acc => list_sum (map nodeCount cs) + acc) 0 m
     end).
Proof. by destruct c. Qed.

Lemma list_sum_elem_le (f : ComponentInstance → nat) c cs :
  c ∈ cs → f c ≤ list_sum (map f cs).
Proof.
  induction 1 as [|? ? ? _ IH]; simpl; lia.
Qed.

Lemma childOf_nodeCount c p : childOf c p → nodeCount c < nodeCount p.
Proof.
  intros [s k cs Hs Hk Hc]. rewrite (nodeCount_eq p), Hs.
  rewrite (map_fold_delete_L _ _ k cs s); [| intros; lia | done].
  pose proof (list_sum_elem_le nodeCount c cs Hc). lia.
Qed.

(** Induction on a composition: a property holds of every component as
    soon as it passes from the children of a component to the component. *)
Lemma component_ind (P : ComponentInstance → Prop) :
  (∀ p, (∀ c, childOf c p → P c) → P p) → ∀ c, P c.
Proof.
  intros step c.
  remember (nodeCount c) as n eqn:Hn. revert c Hn.
  induction n as [n IH] using lt_wf_ind; intros c ->.
  apply step. intros c' Hc'. eapply IH; [| reflexivity].
  by apply childOf_nodeCount.
Qed.

(** * The filter: equations in the shape of the source *)

Lemma filterSlot_flat_map cs :
  flat_map (fun c => if filterPredicate c then [filterChildSlots c] else []) cs
  = filterSlot cs.
Proof.
  unfold filterSlot. induction cs as [|c cs IH]; [done|].
  simpl. destruct (filterPredicate c); simpl; by rewrite IH.
Qed.

(** The [.map] callback replaces every slot by [filterSlot] of it. *)
Lemma filterChildSlots_eq c :
  filterChildSlots c =
  {| type := type c;
     parameters := parameters c;
     slots := (fun m : gmap string (list ComponentInstance) => filterSlot <$> m)
              <$> slots c;
     data := data c |}.
Proof.
  destruct c as [t p s d]; simpl. f_equal.
  destruct s as [m|]; [|done]. simpl. f_equal.
  apply map_fmap_ext. intros k cs _. apply filterSlot_flat_map.
Qed.

(** The root is processed exactly like a kept component. *)
Lemma filterUnauthorizedComponents_eq composition :
  filterUnauthorizedComponents composition = filterChildSlots composition.
Proof.
  rewrite filterChildSlots_eq. unfold filterUnauthorizedComponents.
  by destruct composition as [t p [m|] d].
Qed.

Lemma filterChildSlots_type c : type (filterChildSlots c) = type c.
Proof. by destruct c. Qed.

Lemma filterChildSlots_parameters c :
  parameters (filterChildSlots c) = parameters c.
Proof. by destruct c. Qed.

Lemma filterChildSlots_data c : data (filterChildSlots c) = data c.
Proof. by destruct c. Qed.

Lemma filterChildSlots_slots c :
  slots (filterChildSlots c)
  = (fun m : gmap string (list ComponentInstance) => filterSlot <$> m) <$> slots c.
Proof. by rewrite filterChildSlots_eq. Qed.

Lemma filterPredicate_filterChildSlots c :
  filterPredicate (filterChildSlots c) = filterPredicate c.
Proof.
  unfold filterPredicate, accessControlOf. by rewrite filterChildSlots_data.
Qed.

Lemma filterSlot_app l1 l2 : filterSlot (l1 ++ l2) = filterSlot l1 ++ filterSlot l2.
Proof. unfold filterSlot. by rewrite List.filter_app, map_app. Qed.

Lemma filterSlot_cons c cs :
  filterSlot (c :: cs)
  = if filterPredicate c then filterChildSlots c :: filterSlot cs else filterSlot cs.
Proof. unfold filterSlot. simpl. by destruct (filterPredicate c). Qed.

Lemma elem_of_filterSlot c' cs :
  c' ∈ filterSlot cs ↔
  ∃ c, c ∈ cs ∧ filterPredicate c = true ∧ c' = filterChildSlots c.
Proof.
  unfold filterSlot. rewrite list_elem_of_In, in_map_iff. split.
  - intros (c & <- & Hc). apply filter_In in Hc as [Hc Hp].
    exists c. by rewrite list_elem_of_In.
  - intros (c & Hc & Hp & ->). exists c. split; [done|].
    apply filter_In. by rewrite <- list_elem_of_In.
Qed.

(** The children of a processed component are the processed kept children
    of the component. *)
Lemma childOf_filterChildSlots c' p :
  childOf c' (filterChildSlots p) ↔
  ∃ c, childOf c p ∧ filterPredicate c = true ∧ c' = filterChildSlots c.
Proof.
  split.
  - intros [s k cs Hs Hk Hc]. rewrite filterChildSlots_slots in Hs.
    destruct (slots p) as [m|] eqn:Hm; [|done]. simpl in Hs.
    injection Hs as <-. rewrite lookup_fmap in Hk.
    destruct (m !! k) as [cs0|] eqn:Hk0; [|done]. simpl in Hk.
    injection Hk as <-. apply elem_of_filterSlot in Hc as (c & Hc & Hp & ->).
    exists c. split; [|done]. by econstructor.
  - intros (c & [s k cs Hs Hk Hc] & Hp & ->).
    apply (childOf_slot _ _ (filterSlot <$> s) k (filterSlot cs)).
    + by rewrite filterChildSlots_slots, Hs.
    + by rewrite lookup_fmap, Hk.
    + apply elem_of_filterSlot. eauto.
Qed.

Lemma keptBelow_descendantOf c p : keptBelow c p → descendantOf c p.
Proof.
  induction 1; [by constructor|by econstructor].
Qed.

Lemma keptBelow_filterPredicate c p : keptBelow c p → filterPredicate c = true.
Proof. by induction 1. Qed.

(** The components below a processed component are exactly the images of
    the components reached through kept components only. *)
Lemma descendantOf_filterChildSlots c' p :
  descendantOf c' (filterChildSlots p) ↔
  ∃ c, keptBelow c p ∧ c' = filterChildSlots c.
Proof.
  split.
  - intros H. remember (filterChildSlots p) as p' eqn:Hp. revert p Hp.
    induction H as [p' Hc|m' p' _ IH Hm]; intros p ->.
    + apply childOf_filterChildSlots in Hc as (c & Hc & Hk & ->).
      exists c. split; [by constructor|done].
    + apply childOf_filterChildSlots in Hm as (m & Hm & Hkm & ->).
      destruct (IH m eq_refl) as (c & Hc & ->).
      exists c. split; [by econstructor|done].
  - intros (c & H & ->). induction H as [p Hc Hk|m p _ IH Hm Hk].
    + constructor. apply childOf_filterChildSlots. eauto.
    + econstructor; [exact IH|]. apply childOf_filterChildSlots. eauto.
Qed.

(** * The enhancer: structural facts *)

Lemma enhance_eq e ctx c :
  enhance e ctx c =
  {| type := type c;
     parameters := parameters c;
     slots := (fun m : gmap string (list ComponentInstance) =>
                 (map (enhance e ctx)) <$> m) <$> slots c;
     data := setEnhancedData (authStateData e ctx) (accessControlData e c ctx)
                             (data c) |}.
Proof. by destruct c. Qed.

Lemma enhance_type e ctx c : type (enhance e ctx c) = type c.
Proof. by destruct c. Qed.

Lemma enhance_parameters e ctx c : parameters (enhance e ctx c) = parameters c.
Proof. by destruct c. Qed.

Lemma enhance_slots e ctx c :
  slots (enhance e ctx c)
  = (fun m : gmap string (list ComponentInstance) => (map (enhance e ctx)) <$> m)
    <$> slots c.
Proof. by destruct c. Qed.

Lemma enhance_data e ctx c :
  data (enhance e ctx c)
  = setEnhancedData (authStateData e ctx) (accessControlData e c ctx) (data c).
Proof. by destruct c. Qed.

Lemma enhance_accessTypeValue e ctx c :
  accessTypeValue (enhance e ctx c) = accessTypeValue c.
Proof. unfold accessTypeValue. by rewrite enhance_parameters. Qed.

Lemma enhance_authStateOf e ctx c :
  authStateOf (enhance e ctx c) = Some (authStateData e ctx).
Proof. unfold authStateOf. by rewrite enhance_data. Qed.

Lemma enhance_accessControlOf e ctx c :
  accessControlOf (enhance e ctx c) = Some (accessControlData e c ctx).
Proof. unfold accessControlOf. by rewrite enhance_data. Qed.

Lemma childOf_enhance e ctx c' p :
  childOf c' (enhance e ctx p) ↔ ∃ c, childOf c p ∧ c' = enhance e ctx c.
Proof.
  split.
  - intros [s k cs Hs Hk Hc]. rewrite enhance_slots in Hs.
    destruct (slots p) as [m|] eqn:Hm; [|done]. simpl in Hs.
    injection Hs as <-. rewrite lookup_fmap in Hk.
    destruct (m !! k) as [cs0|] eqn:Hk0; [|done]. simpl in Hk.
    injection Hk as <-. rewrite list_elem_of_In, in_map_iff in Hc.
    destruct Hc as (c & <- & Hc). exists c. split; [|done].
    econstructor; [done..|]. by apply list_elem_of_In.
  - intros (c & [s k cs Hs Hk Hc] & ->).
    apply (childOf_slot _ _ (map (enhance e ctx) <$> s) k (map (enhance e ctx) cs)).
    + by rewrite enhance_slots, Hs.
    + by rewrite lookup_fmap, Hk.
    + rewrite list_elem_of_In. apply in_map. by apply list_elem_of_In.
Qed.

Lemma descendantOf_enhance e ctx c' p :
  descendantOf c' (enhance e ctx p) ↔ ∃ c, descendantOf c p ∧ c' = enhance e ctx c.
Proof.
  split.
  - intros H. remember (enhance e ctx p) as p' eqn:Hp. revert p Hp.
    induction H as [p' Hc|m' p' _ IH Hm]; intros p ->.
    + apply childOf_enhance in Hc as (c & Hc & ->).
      exists c. split; [by constructor|done].
    + apply childOf_enhance in Hm as (m & Hm & ->).
      destruct (IH m eq_refl) as (c & Hc & ->).
      exists c. split; [by econstructor|done].
  - intros (c & H & ->). induction H as [p Hc|m p _ IH Hm].
    + constructor. apply childOf_enhance. eauto.
    + econstructor; [exact IH|]. apply childOf_enhance. eauto.
Qed.

(** Every component of an enhanced composition is the enhancement of a
    component of the composition, and conversely. *)
Lemma inTree_enhance e ctx c' root :
  inTree c' (enhance e ctx root) ↔ ∃ c, inTree c root ∧ c' = enhance e ctx c.
Proof.
  unfold inTree. split.
  - intros [->|H]; [by eauto|].
    apply descendantOf_enhance in H as (c & H & ->). eauto.
  - intros (c & [->|H] & ->); [by left|].
    right. apply descendantOf_enhance. eauto.
Qed.

(** * Scenarios of the specification, evaluated *)

Example scenarioA_filtered :
  enhanceAndFilter false (Some false) None (Some scenarioA) ≫= slotOf "main"
  = Some [].
Proof. vm_compute. reflexivity. Qed.

Example scenarioB_kept :
  enhanceAndFilter false (Some false) (Some alice) (Some scenarioA) ≫= slotOf "main"
  = Some [enhance createAccessControlEnhancer aliceContext nodeX]
  ∧ accessControlOf (enhance createAccessControlEnhancer aliceContext nodeX)
    = Some {| allowed := true; reason := authorized |}.
Proof. vm_compute. done. Qed.

Example scenarioC_canvas :
  enhanceAndFilter true (Some true) None (Some scenarioA) ≫= slotOf "main"
  = Some [enhance createAccessControlEnhancer canvasContext nodeX]
  ∧ accessControlOf (enhance createAccessControlEnhancer canvasContext nodeX)
    = Some {| allowed := true; reason := canvas_mode |}.
Proof. vm_compute. done. Qed.

Example scenarioD_nested_kept :
  enhanceAndFilter false (Some false) None (Some scenarioD) ≫= slotOf "s"
  = Some [enhance createAccessControlEnhancer anonymousContext nodeA;
          enhance createAccessControlEnhancer anonymousContext nodePlain]
  ∧ slotOf "inner" (enhance createAccessControlEnhancer anonymousContext nodeA)
    = Some [enhance createAccessControlEnhancer anonymousContext nodeB].
Proof. vm_compute. done. Qed.

Example scenarioE_subtree_removed :
  enhanceAndFilter false (Some false) (Some alice) (Some scenarioD) ≫= slotOf "s"
  = Some [enhance createAccessControlEnhancer aliceContext nodePlain].
Proof. vm_compute. reflexivity. Qed.

(** * Canvas-mode detection *)

(** [getCanvasMode] is truthy only when the editor flag is set and one of
    the two draft-mode readings is active. *)
Lemma getCanvasMode_conjunction context serverDraftMode :
  truthyFlag (getCanvasMode context serverDraftMode)
  = truthyFlag (context ≫= isContextualEditing)
    && (truthyFlag (context ≫= isDraftMode) || serverDraftMode).
Proof.
  unfold getCanvasMode, jsAnd, jsOr.
  destruct (context ≫= isContextualEditing) as [[]|],
           (context ≫= isDraftMode) as [[]|], serverDraftMode; reflexivity.
Qed.

(** On the protected route the flag handed to the enhancer is the
    conjunction of draft mode and the editor query flag. *)
Lemma ProtectedCMSPage_isCanvasMode_conjunction draft searchParams :
  truthyFlag (ProtectedCMSPage_isCanvasMode draft searchParams)
  = draft && isIncontextEditing searchParams.
Proof.
  unfold ProtectedCMSPage_isCanvasMode. rewrite getCanvasMode_conjunction. simpl.
  by destruct draft, (isIncontextEditing searchParams).
Qed.

(** C1.  The flag handed to the enhancer is meant to need both the secure
    draft-mode indicator and the editor query flag.  [getCanvasMode] (used
    by the protected route) computes that conjunction, but the CMS page and
    the locale root page compute a disjunction: with draft mode off, the
    bare query string [?is_incontext_editing_mode=true] sets the flag, the
    filter is skipped and a [users]-only component stays in the composition
    of a visitor without a session. *)
Theorem bare_query_flag_sets_isCanvasMode :
  let searchParams : option (gmap string SearchParamValue) :=
    Some {[ "is_incontext_editing_mode" := ParamString "true" ]} in
  CMSPage_isCanvasMode false searchParams = true
  ∧ HomePage_isCanvasMode false searchParams = true
  ∧ ProtectedCMSPage_isCanvasMode false searchParams = Some false
  ∧ CMSPage_composition false searchParams None (Some scenarioA) ≫= slotOf "main"
    = Some [enhance createAccessControlEnhancer
              {| preview := Some false; isCanvasMode := Some true; session := None |}
              nodeX]
  ∧ HomePage_composition false searchParams None (Some scenarioA) ≫= slotOf "main"
    = Some [enhance createAccessControlEnhancer
              {| preview := Some false; isCanvasMode := Some true; session := None |}
              nodeX]
  ∧ ProtectedCMSPage_composition false searchParams None (Some scenarioA)
    ≫= slotOf "main" = Some [].
Proof. vm_compute. done. Qed.

(** * The filter *)

Lemma filterPredicate_false c : filterPredicate c = false ↔ denied c.
Proof.
  unfold filterPredicate, denied. destruct (accessControlOf c) as [r|].
  - destruct (allowed r) eqn:Hr; simpl.
    + split; [done|]. intros (r' & [= <-] & Hr'). congruence.
    + split; [eauto|done].
  - split; [done|]. by intros (r & ? & _).
Qed.

Lemma filterPredicate_true c : filterPredicate c = true ↔ ¬ denied c.
Proof.
  rewrite <- filterPredicate_false. by destruct (filterPredicate c).
Qed.

Lemma filter_sublist (cs : list ComponentInstance) :
  sublist (List.filter filterPredicate cs) cs.
Proof.
  induction cs as [|c cs IH]; simpl; [constructor|].
  destruct (filterPredicate c); by constructor.
Qed.

(** C2.  With editor bypass off the filter runs on the annotated tree.  In
    every slot array a denied component contributes nothing to the result
    (the result does not depend on its subtree), a component that is not
    denied contributes itself with each of its slots filtered by the same
    rule, the survivors keep their relative order, and every component
    found anywhere below the root of the result is the image of a component
    of the input that is reached through components that are not denied. *)
Theorem filter_removes_denied_subtrees (root : ComponentInstance) :
  (∀ draft canvasMode session, truthyFlag canvasMode = false →
     enhanceAndFilter draft canvasMode session (Some root)
     = Some (filterUnauthorizedComponents
               (enhance createAccessControlEnhancer
                  {| preview := Some draft; isCanvasMode := canvasMode;
                     session := session |} root)))
  ∧ (∀ l1 c l2, denied c →
     filterSlot (l1 ++ c :: l2) = filterSlot l1 ++ filterSlot l2)
  ∧ (∀ l1 c l2, ¬ denied c →
       filterSlot (l1 ++ c :: l2)
       = filterSlot l1 ++ filterChildSlots c :: filterSlot l2
       ∧ ∀ slotName, slotOf slotName (filterChildSlots c)
                     = filterSlot <$> slotOf slotName c)
  ∧ (∀ slotName, slotOf slotName (filterUnauthorizedComponents root)
                 = filterSlot <$> slotOf slotName root)
  ∧ (∀ cs, ∃ kept, sublist kept cs
                   ∧ filterSlot cs = map filterChildSlots kept
                   ∧ ∀ c, c ∈ kept ↔ c ∈ cs ∧ ¬ denied c)
  ∧ (∀ c', descendantOf c' (filterUnauthorizedComponents root) →
       ¬ denied c'
       ∧ ∃ c, keptBelow c root ∧ c' = filterChildSlots c).
Proof.
  assert (Hslot : ∀ slotName c, slotOf slotName (filterChildSlots c)
                                = filterSlot <$> slotOf slotName c).
  { intros k c. unfold slotOf. rewrite filterChildSlots_slots.
    destruct (slots c) as [m|]; [|done]. simpl. by rewrite lookup_fmap. }
  split_and!.
  - intros draft canvasMode session Hoff. unfold enhanceAndFilter.
    by rewrite Hoff.
  - intros l1 c l2 Hd%filterPredicate_false.
    by rewrite filterSlot_app, filterSlot_cons, Hd.
  - intros l1 c l2 Hd%filterPredicate_true. split; [|by intros; apply Hslot].
    by rewrite filterSlot_app, filterSlot_cons, Hd.
  - intros k. rewrite filterUnauthorizedComponents_eq. apply Hslot.
  - intros cs. exists (List.filter filterPredicate cs).
    split_and!; [apply filter_sublist|done|].
    intros c. rewrite list_elem_of_In, filter_In, <- list_elem_of_In.
    by rewrite filterPredicate_true.
  - intros c'. rewrite filterUnauthorizedComponents_eq.
    intros (c & Hc & ->)%descendantOf_filterChildSlots. split; [|eauto].
    apply filterPredicate_true. rewrite filterPredicate_filterChildSlots.
    by eapply keptBelow_filterPredicate.
Qed.

(** Scenario E, annotated for a signed-in visitor: [nodeA] (anonymous
    only) is denied while its child [nodeB] and its sibling [nodePlain]
    are allowed. *)
Lemma filter_removes_denied_subtrees_witness :
  let annotate := enhance createAccessControlEnhancer aliceContext in
  denied (annotate nodeA)
  ∧ ¬ denied (annotate nodePlain)
  ∧ filterSlot ([] ++ annotate nodeA :: [annotate nodePlain])
    = filterSlot [] ++ filterSlot [annotate nodePlain]
  ∧ filterSlot ([annotate nodeA] ++ annotate nodePlain :: [])
    = filterSlot [annotate nodeA] ++ filterChildSlots (annotate nodePlain) :: filterSlot []
  ∧ descendantOf (annotate nodePlain) (filterUnauthorizedComponents (annotate scenarioD))
  ∧ (∃ c, keptBelow c (annotate scenarioD) ∧ annotate nodePlain = filterChildSlots c)
  ∧ enhanceAndFilter false (Some false) (Some alice) (Some scenarioD)
    = Some (filterUnauthorizedComponents (annotate scenarioD)).
Proof.
  intros annotate.
  assert (Hd : denied (annotate nodeA)).
  { exists {| allowed := false; reason := anonymous_only |}.
    vm_compute. split; reflexivity. }
  assert (Hk : ¬ denied (annotate nodePlain)).
  { intros (r & Hr & Ha). vm_compute in Hr. injection Hr as <-. discriminate Ha. }
  assert (Hin : descendantOf (annotate nodePlain)
                  (filterUnauthorizedComponents (annotate scenarioD))).
  { constructor.
    child_in_slot "s". }
  destruct (filter_removes_denied_subtrees (annotate scenarioD))
    as (_ & H1 & H2 & _ & _ & H5).
  destruct (filter_removes_denied_subtrees scenarioD) as (H0 & _).
  split_and!; [exact Hd|exact Hk| | |exact Hin| |].
  - exact (H1 [] _ [annotate nodePlain] Hd).
  - exact (proj1 (H2 [annotate nodeA] _ [] Hk)).
  - exact (proj2 (H5 _ Hin)).
  - exact (H0 false (Some false) (Some alice) eq_refl).
Defined.

(** C6.  The filter keeps, in every slot at every level, exactly the
    children that are not denied ([_accessControl.allowed !== false]), in
    their order; a child without [_accessControl] (or without [data]) is
    kept, and its own slots are filtered by the same rule. *)
Theorem filter_keeps_exactly_not_denied (root : ComponentInstance) :
  (∀ cs, filterSlot cs = filterChildSlots <$> filter (λ c, ¬ denied c) cs)
  ∧ (∀ p slotName,
       slotOf slotName (filterChildSlots p) = filterSlot <$> slotOf slotName p)
  ∧ (∀ slotName,
       slotOf slotName (filterUnauthorizedComponents root)
       = filterSlot <$> slotOf slotName root)
  ∧ (∀ c', descendantOf c' (filterUnauthorizedComponents root) ↔
           ∃ c, keptBelow c root ∧ c' = filterChildSlots c)
  ∧ (∀ c l1 l2, accessControlOf c = None →
       ¬ denied c
       ∧ filterSlot (l1 ++ c :: l2)
         = filterSlot l1 ++ filterChildSlots c :: filterSlot l2).
Proof.
  assert (Hslot : ∀ p slotName, slotOf slotName (filterChildSlots p)
                                = filterSlot <$> slotOf slotName p).
  { intros p k. unfold slotOf. rewrite filterChildSlots_slots.
    destruct (slots p) as [m|]; [|done]. simpl. by rewrite lookup_fmap. }
  split_and!.
  - intros cs. induction cs as [|c cs IH]; [done|].
    rewrite filterSlot_cons, filter_cons, IH.
    destruct (filterPredicate c) eqn:Hp; case_decide as Hd; try done.
    + by apply filterPredicate_true in Hp.
    + apply filterPredicate_false in Hp. done.
  - exact Hslot.
  - intros k. rewrite filterUnauthorizedComponents_eq. apply Hslot.
  - intros c'. rewrite filterUnauthorizedComponents_eq.
    apply descendantOf_filterChildSlots.
  - intros c l1 l2 Hnone.
    assert (Hp : filterPredicate c = true) by (unfold filterPredicate; by rewrite Hnone).
    split; [by apply filterPredicate_true|].
    by rewrite filterSlot_app, filterSlot_cons, Hp.
Qed.

(** An unannotated component with an unannotated child over a denied
    grandchild: both unannotated components stay, the denied one goes. *)
Lemma filter_keeps_exactly_not_denied_witness :
  let deniedLeaf :=
    mkComponent "hero" None None
      (Some {| _authState := None;
               _accessControl := Some {| allowed := false; reason := requires_auth |};
               otherData := ∅ |}) in
  let bare := mkComponent "section" None (Some {[ "inner" := [deniedLeaf; nodePlain] ]}) None in
  accessControlOf bare = None
  ∧ ¬ denied bare
  ∧ filterSlot ([nodePlain] ++ bare :: [deniedLeaf])
    = filterSlot [nodePlain] ++ filterChildSlots bare :: filterSlot [deniedLeaf]
  ∧ slotOf "inner" (filterChildSlots bare) = Some [nodePlain].
Proof.
  intros deniedLeaf bare.
  destruct (filter_keeps_exactly_not_denied bare) as (_ & H2 & _ & _ & H5).
  assert (Hnone : accessControlOf bare = None) by reflexivity.
  destruct (H5 bare [nodePlain] [deniedLeaf] Hnone) as [Hk Heq].
  split_and!; [exact Hnone|exact Hk|exact Heq|].
  rewrite H2. vm_compute. reflexivity.
Defined.

(** * The annotator *)

(** C3.  After one annotation pass every component of the tree, the root
    included, carries the same [_authState]: [isAuthenticated] tells
    whether the session is non-null, and [user] is the session's user or
    [null]. *)
Theorem annotation_authState_uniform
    (context : AccessControlEnhancerContext) (root : ComponentInstance) :
  let annotated := enhance createAccessControlEnhancer context root in
  (∀ c, inTree c annotated →
     authStateOf c
     = Some {| isAuthenticated := bool_decide (session context ≠ None);
               authUser := user <$> session context |})
  ∧ (∀ c1 c2, inTree c1 annotated → inTree c2 annotated →
       authStateOf c1 = authStateOf c2)
  ∧ (∀ c a, inTree c annotated → authStateOf c = Some a →
       (isAuthenticated a = true ↔ session context ≠ None)).
Proof.
  intros annotated.
  assert (H : ∀ c, inTree c annotated →
     authStateOf c
     = Some {| isAuthenticated := bool_decide (session context ≠ None);
               authUser := user <$> session context |}).
  { intros c (c0 & _ & ->)%inTree_enhance. rewrite enhance_authStateOf.
    simpl. by destruct (session context). }
  split_and!; [exact H| |].
  - intros c1 c2 H1 H2. by rewrite (H c1 H1), (H c2 H2).
  - intros c a Hc Ha. rewrite (H c Hc) in Ha. injection Ha as <-. simpl.
    by rewrite bool_decide_eq_true.
Qed.

Lemma annotation_authState_uniform_witness :
  let annotated := enhance createAccessControlEnhancer aliceContext scenarioD in
  let leaf := enhance createAccessControlEnhancer aliceContext nodeB in
  inTree leaf annotated
  ∧ inTree annotated annotated
  ∧ authStateOf leaf
    = Some {| isAuthenticated := true; authUser := Some (user alice) |}
  ∧ authStateOf leaf = authStateOf annotated.
Proof.
  intros annotated leaf.
  assert (Hleaf : inTree leaf annotated).
  { right. apply descendant_step with (enhance createAccessControlEnhancer aliceContext nodeA).
    - constructor. child_in_slot "inner".
    - child_in_slot "s". }
  assert (Hroot : inTree annotated annotated) by (by left).
  destruct (annotation_authState_uniform aliceContext scenarioD) as (H1 & H2 & _).
  split_and!; [exact Hleaf|exact Hroot| |].
  - exact (H1 leaf Hleaf).
  - exact (H2 leaf annotated Hleaf Hroot).
Defined.

(** C4.  With editor bypass off, a component whose [accessType] is
    ['users'] is annotated with [allowed] equal to [isAuthenticated], and
    one whose [accessType] is ['anonymous'] with its negation, whatever the
    session; [isAuthenticated] is the one written on the same component,
    which tells whether the context's session is non-null.  So ['users']
    content is allowed exactly with a session (reason ['authorized'],
    otherwise ['requires-auth']) and ['anonymous'] content exactly without
    one (reason ['authorized'], otherwise ['anonymous-only']). *)
Theorem users_and_anonymous_follow_isAuthenticated
    (context : AccessControlEnhancerContext) (root c : ComponentInstance) :
  truthyFlag (isCanvasMode context) = false →
  inTree c (enhance createAccessControlEnhancer context root) →
  ∃ r a, accessControlOf c = Some r ∧ authStateOf c = Some a
         ∧ isAuthenticated a = bool_decide (session context ≠ None)
         ∧ (accessTypeValue c = Some (JString "users") →
              allowed r = isAuthenticated a
              ∧ allowed r = bool_decide (session context ≠ None)
              ∧ reason r = match session context with
                           | Some _ => authorized
                           | None => requires_auth
                           end)
         ∧ (accessTypeValue c = Some (JString "anonymous") →
              allowed r = negb (isAuthenticated a)
              ∧ allowed r = bool_decide (session context = None)
              ∧ reason r = match session context with
                           | Some _ => anonymous_only
                           | None => authorized
                           end).
Proof.
  intros Hoff (c0 & _ & ->)%inTree_enhance.
  rewrite enhance_accessControlOf, enhance_authStateOf, enhance_accessTypeValue.
  eexists _, _. split_and!; [reflexivity..| | |].
  - simpl. by destruct (session context).
  - intros Hu. simpl. rewrite Hoff, Hu. simpl.
    by destruct (session context).
  - intros Hu. simpl. rewrite Hoff, Hu. simpl.
    by destruct (session context).
Qed.

(** Scenario A without a session ([users] content denied), the same with
    a session (allowed), and scenario D with a session ([anonymous]
    content denied). *)
Lemma users_and_anonymous_follow_isAuthenticated_witness :
  let leaf := enhance createAccessControlEnhancer anonymousContext nodeX in
  let member := enhance createAccessControlEnhancer aliceContext nodeX in
  let anon := enhance createAccessControlEnhancer aliceContext nodeA in
  (∃ r a, accessControlOf leaf = Some r ∧ authStateOf leaf = Some a
          ∧ isAuthenticated a = false
          ∧ allowed r = isAuthenticated a
          ∧ allowed r = false ∧ reason r = requires_auth)
  ∧ (∃ r a, accessControlOf member = Some r ∧ authStateOf member = Some a
            ∧ isAuthenticated a = true
            ∧ allowed r = isAuthenticated a
            ∧ allowed r = true ∧ reason r = authorized)
  ∧ (∃ r a, accessControlOf anon = Some r ∧ authStateOf anon = Some a
            ∧ isAuthenticated a = true
            ∧ allowed r = negb (isAuthenticated a)
            ∧ allowed r = false ∧ reason r = anonymous_only).
Proof.
  intros leaf member anon. split_and!.
  - destruct (users_and_anonymous_follow_isAuthenticated
                anonymousContext scenarioA leaf)
      as (r & a & Hr & Ha & Hs & Hu & _).
    + reflexivity.
    + right. constructor. child_in_slot "main".
    + destruct Hu as (H1 & H2 & H3); [vm_compute; reflexivity|].
      exists r, a. split_and!; [exact Hr|exact Ha|exact Hs|exact H1|exact H2|exact H3].
  - destruct (users_and_anonymous_follow_isAuthenticated
                aliceContext scenarioA member)
      as (r & a & Hr & Ha & Hs & Hu & _).
    + reflexivity.
    + right. constructor. child_in_slot "main".
    + destruct Hu as (H1 & H2 & H3); [vm_compute; reflexivity|].
      exists r, a. split_and!; [exact Hr|exact Ha|exact Hs|exact H1|exact H2|exact H3].
  - destruct (users_and_anonymous_follow_isAuthenticated
                aliceContext scenarioD anon)
      as (r & a & Hr & Ha & Hs & _ & Hn).
    + reflexivity.
    + right. constructor. child_in_slot "s".
    + destruct Hn as (H1 & H2 & H3); [vm_compute; reflexivity|].
      exists r, a. split_and!; [exact Hr|exact Ha|exact Hs|exact H1|exact H2|exact H3].
Defined.

Lemma skeleton_eq c :
  skeleton c =
  {| type := type c;
     parameters := parameters c;
     slots := (fun m : gmap string (list ComponentInstance) =>
                 (map skeleton) <$> m) <$> slots c;
     data := None |}.
Proof. by destruct c. Qed.

(** Annotation leaves the shape of the composition alone. *)
Lemma skeleton_enhance e ctx c : skeleton (enhance e ctx c) = skeleton c.
Proof.
  induction c as [p IH] using component_ind.
  rewrite (skeleton_eq (enhance e ctx p)), (skeleton_eq p).
  rewrite enhance_type, enhance_parameters, enhance_slots. f_equal.
  destruct (slots p) as [m|] eqn:Hm; [|done]. simpl. f_equal.
  rewrite <- map_fmap_compose. apply map_fmap_ext. intros k cs Hk. simpl.
  rewrite map_map. apply map_ext_in. intros x Hx. apply IH.
  econstructor; [done..|]. by apply list_elem_of_In.
Qed.

(** C5.  When the flag handed to the enhancer is [true], every component
    is annotated [{ allowed: true, reason: 'canvas-mode' }] whatever its
    [accessType] and whatever the session; the page handlers then skip the
    filter, so the composition they render is the annotated one, with the
    shape of the composition they fetched. *)
Theorem canvas_mode_allows_every_node
    (context : AccessControlEnhancerContext) (root : ComponentInstance) :
  isCanvasMode context = Some true →
  (∀ c, inTree c (enhance createAccessControlEnhancer context root) →
     accessControlOf c = Some {| allowed := true; reason := canvas_mode |})
  ∧ skeleton (enhance createAccessControlEnhancer context root) = skeleton root
  ∧ (∀ draft,
       enhanceAndFilter draft (Some true) (session context) (Some root)
       = Some (enhance createAccessControlEnhancer
                 {| preview := Some draft; isCanvasMode := Some true;
                    session := session context |} root)).
Proof.
  intros Hon. split_and!.
  - intros c (c0 & _ & ->)%inTree_enhance. rewrite enhance_accessControlOf.
    simpl. by rewrite Hon.
  - apply skeleton_enhance.
  - done.
Qed.

Lemma canvas_mode_allows_every_node_witness :
  let annotated := enhance createAccessControlEnhancer canvasContext scenarioA in
  let leaf := enhance createAccessControlEnhancer canvasContext nodeX in
  isCanvasMode canvasContext = Some true
  ∧ inTree leaf annotated
  ∧ accessControlOf leaf = Some {| allowed := true; reason := canvas_mode |}
  ∧ skeleton annotated = skeleton scenarioA
  ∧ enhanceAndFilter true (Some true) None (Some scenarioA) = Some annotated.
Proof.
  intros annotated leaf.
  assert (Hleaf : inTree leaf annotated).
  { right. constructor. child_in_slot "main". }
  destruct (canvas_mode_allows_every_node canvasContext scenarioA eq_refl)
    as (H1 & H2 & H3).
  split_and!; [reflexivity|exact Hleaf|exact (H1 leaf Hleaf)|exact H2|exact (H3 true)].
Defined.

(** The access decision reads the component's parameters only, so it is
    the same before and after annotation. *)
Lemma accessControlData_enhance e ctx ctx' c :
  accessControlData createAccessControlEnhancer (enhance e ctx c) ctx'
  = accessControlData createAccessControlEnhancer c ctx'.
Proof. simpl. by rewrite enhance_accessTypeValue. Qed.

Lemma setEnhancedData_twice a r a' r' d :
  setEnhancedData a r (setEnhancedData a' r' d) = setEnhancedData a r d.
Proof. done. Qed.

(** C7.  Annotating an annotated composition again with the same context
    gives back the same composition: the same [_authState] and
    [_accessControl] on every component, and nothing else changed. *)
Theorem annotation_idempotent
    (context : AccessControlEnhancerContext) (root : ComponentInstance) :
  enhance createAccessControlEnhancer context
    (enhance createAccessControlEnhancer context root)
  = enhance createAccessControlEnhancer context root.
Proof.
  induction root as [p IH] using component_ind.
  rewrite (enhance_eq _ _ (enhance _ _ p)), accessControlData_enhance.
  rewrite enhance_type, enhance_parameters, enhance_slots, enhance_data.
  rewrite setEnhancedData_twice, (enhance_eq _ _ p). f_equal.
  destruct (slots p) as [m|] eqn:Hm; [|done]. simpl. f_equal.
  rewrite <- map_fmap_compose. apply map_fmap_ext. intros k cs Hk. simpl.
  rewrite map_map. apply map_ext_in. intros x Hx. apply IH.
  econstructor; [done..|]. by apply list_elem_of_In.
Qed.

(** * The filter: idempotence and frame *)

Lemma filterSlot_twice cs :
  (∀ x, x ∈ cs → filterChildSlots (filterChildSlots x) = filterChildSlots x) →
  filterSlot (filterSlot cs) = filterSlot cs.
Proof.
  induction cs as [|c cs IH]; intros Hcs; [done|].
  rewrite filterSlot_cons. destruct (filterPredicate c) eqn:Hp.
  - rewrite filterSlot_cons, filterPredicate_filterChildSlots, Hp.
    rewrite Hcs by left. rewrite IH; [done|].
    intros x Hx. apply Hcs. by right.
  - apply IH. intros x Hx. apply Hcs. by right.
Qed.

Lemma filterChildSlots_twice c :
  filterChildSlots (filterChildSlots c) = filterChildSlots c.
Proof.
  induction c as [p IH] using component_ind.
  rewrite (filterChildSlots_eq (filterChildSlots p)).
  rewrite filterChildSlots_type, filterChildSlots_parameters,
    filterChildSlots_slots, filterChildSlots_data, (filterChildSlots_eq p).
  f_equal. destruct (slots p) as [m|] eqn:Hm; [|done]. simpl. f_equal.
  rewrite <- map_fmap_compose. apply map_fmap_ext. intros k cs Hk. simpl.
  apply filterSlot_twice. intros x Hx. apply IH. by econstructor.
Qed.

Lemma filter_filterSlot cs :
  List.filter filterPredicate (filterSlot cs) = filterSlot cs.
Proof.
  induction cs as [|c cs IH]; [done|].
  rewrite filterSlot_cons. destruct (filterPredicate c) eqn:Hp; [|done].
  simpl. by rewrite filterPredicate_filterChildSlots, Hp, IH.
Qed.

(** C8.  Filtering a filtered composition again changes nothing: the
    survivors still carry their [_accessControl], so the same rule keeps
    every one of them. *)
Theorem filter_idempotent (root : ComponentInstance) :
  filterUnauthorizedComponents (filterUnauthorizedComponents root)
  = filterUnauthorizedComponents root
  ∧ (∀ cs, filterSlot (filterSlot cs) = filterSlot cs)
  ∧ (∀ cs, List.filter filterPredicate (filterSlot cs) = filterSlot cs)
  ∧ (∀ c, accessControlOf (filterChildSlots c) = accessControlOf c)
  ∧ accessControlOf (filterUnauthorizedComponents root) = accessControlOf root.
Proof.
  split_and!.
  - rewrite !filterUnauthorizedComponents_eq. apply filterChildSlots_twice.
  - intros cs. apply filterSlot_twice. intros x _. apply filterChildSlots_twice.
  - apply filter_filterSlot.
  - intros c. unfold accessControlOf. by rewrite filterChildSlots_data.
  - rewrite filterUnauthorizedComponents_eq. unfold accessControlOf.
    by rewrite filterChildSlots_data.
Qed.

(** C10.  The filter returns the root it was given, denied or not, with
    the same [type], [parameters] and [data]; only its slot arrays are
    replaced.  Likewise every component found below the root of the result
    has the [type], [parameters] and [data] of a component of the input. *)
Theorem filter_changes_slots_only (root : ComponentInstance) :
  filterUnauthorizedComponents root
  = {| type := type root;
       parameters := parameters root;
       slots := (fun m : gmap string (list ComponentInstance) => filterSlot <$> m)
                <$> slots root;
       data := data root |}
  ∧ (denied root → denied (filterUnauthorizedComponents root))
  ∧ (∀ c', descendantOf c' (filterUnauthorizedComponents root) →
       ∃ c, descendantOf c root
            ∧ type c' = type c ∧ parameters c' = parameters c ∧ data c' = data c
            ∧ authStateOf c' = authStateOf c
            ∧ accessControlOf c' = accessControlOf c).
Proof.
  split_and!.
  - rewrite filterUnauthorizedComponents_eq. apply filterChildSlots_eq.
  - rewrite filterUnauthorizedComponents_eq. unfold denied, accessControlOf.
    by rewrite filterChildSlots_data.
  - intros c'. rewrite filterUnauthorizedComponents_eq.
    intros (c & Hc & ->)%descendantOf_filterChildSlots.
    exists c. unfold authStateOf, accessControlOf.
    rewrite filterChildSlots_type, filterChildSlots_parameters,
      filterChildSlots_data.
    split_and!; try done. by apply keptBelow_descendantOf.
Qed.

(** A denied root over an allowed child: the root stays, and so does the
    child, each with its annotation. *)
Lemma filter_changes_slots_only_witness :
  let root := enhance createAccessControlEnhancer aliceContext nodeA in
  let child := enhance createAccessControlEnhancer aliceContext nodeB in
  denied root
  ∧ denied (filterUnauthorizedComponents root)
  ∧ data (filterUnauthorizedComponents root) = data root
  ∧ descendantOf child (filterUnauthorizedComponents root)
  ∧ ∃ c, descendantOf c root ∧ type child = type c
         ∧ parameters child = parameters c ∧ data child = data c.
Proof.
  intros root child.
  assert (Hd : denied root).
  { exists {| allowed := false; reason := anonymous_only |}.
    vm_compute. split; reflexivity. }
  assert (Hc : descendantOf child (filterUnauthorizedComponents root)).
  { constructor. child_in_slot "inner". }
  destruct (filter_changes_slots_only root) as (H1 & H2 & H3).
  split_and!; [exact Hd|exact (H2 Hd)|by rewrite H1|exact Hc|].
  destruct (H3 child Hc) as (c & Hc1 & Ht & Hp & Hda & _).
  exists c. by split_and!.
Defined.

(** * Unknown access types *)

(** An unknown access type is not handled by the ['everyone'] branch: with
    bypass off, the decision recorded for [accessType: 'premium'] differs
    from the one recorded when the parameter is absent. *)
Lemma unknown_accessType_differs_from_absent :
  accessTypeValue nodeLegacy = Some (JString "premium")
  ∧ accessTypeValue nodeLegacyUnset = None
  ∧ accessControlData createAccessControlEnhancer nodeLegacy anonymousContext
    = {| allowed := true; reason := authorized |}
  ∧ accessControlData createAccessControlEnhancer nodeLegacyUnset anonymousContext
    = {| allowed := true; reason := everyone |}
  ∧ accessControlData createAccessControlEnhancer nodeLegacy anonymousContext
    ≠ accessControlData createAccessControlEnhancer nodeLegacyUnset anonymousContext.
Proof. vm_compute. split_and!; try reflexivity. discriminate. Qed.

(** C9 (amended).  For an [accessType] string other than ['everyone'],
    ['users'] and ['anonymous'] the decision always has [allowed = true],
    as it has when the parameter is absent, for every session and with or
    without bypass.  The recorded reason is ['canvas-mode'] under bypass;
    otherwise it is ['authorized'] for a non-empty string and ['everyone']
    only for the empty string, whereas an absent parameter gives
    ['everyone']. *)
Theorem unknown_accessType_is_permissive
    (context : AccessControlEnhancerContext) (c : ComponentInstance) (s : string) :
  accessTypeValue c = Some (JString s) →
  s ≠ "everyone" → s ≠ "users" → s ≠ "anonymous" →
  accessControlData createAccessControlEnhancer c context
  = {| allowed := true;
       reason := if truthyFlag (isCanvasMode context) then canvas_mode
                 else if bool_decide (s = "") then everyone else authorized |}
  ∧ (∀ c0, accessTypeValue c0 = None →
       accessControlData createAccessControlEnhancer c0 context
       = {| allowed := true;
            reason := if truthyFlag (isCanvasMode context) then canvas_mode
                      else everyone |})
  ∧ accessControlOf (enhance createAccessControlEnhancer context c)
    = Some (accessControlData createAccessControlEnhancer c context).
Proof.
  intros Hs He Hu Ha.
  apply String.eqb_neq in He, Hu, Ha. split_and!.
  - simpl. rewrite Hs. simpl. rewrite He, Hu, Ha. simpl.
    destruct (truthyFlag (isCanvasMode context)); [done|].
    case_bool_decide as Hempty.
    + subst s. done.
    + apply String.eqb_neq in Hempty. by rewrite Hempty.
  - intros c0 H0. simpl. rewrite H0. simpl.
    by destruct (truthyFlag (isCanvasMode context)).
  - apply enhance_accessControlOf.
Qed.

Lemma unknown_accessType_is_permissive_witness :
  accessTypeValue nodeLegacy = Some (JString "premium")
  ∧ accessControlData createAccessControlEnhancer nodeLegacy aliceContext
    = {| allowed := true; reason := authorized |}
  ∧ accessControlData createAccessControlEnhancer nodeLegacyUnset aliceContext
    = {| allowed := true; reason := everyone |}.
Proof.
  destruct (unknown_accessType_is_permissive aliceContext nodeLegacy "premium")
    as (H1 & H2 & _).
  - reflexivity.
  - discriminate.
  - discriminate.
  - discriminate.
  - split_and!; [reflexivity|exact H1|].
    apply (H2 nodeLegacyUnset). reflexivity.
Defined.

(** * Component resolution *)

(** [resolveComponent] falls back to the not-implemented component
    exactly when no registered mapping has the component's type. *)
Theorem resolveComponent_default_iff mappings (component : ComponentInstance) :
  resolveComponent mappings component = DefaultNotImplementedComponent
  ↔ ∀ key m, (key, Some m) ∈ mappings → mappingType m ≠ type component.
Proof.
  unfold resolveComponent. generalize (type component) as ty. intros ty.
  induction mappings as [|[k [m|]] rest IH]; simpl.
  - split; [|done]. intros _ key m Hin. by apply elem_of_nil in Hin.
  - destruct (String.eqb (mappingType m) ty) eqn:He.
    + split; [done|]. intros H. apply String.eqb_eq in He.
      exfalso. apply (H k m); [left|done].
    + apply String.eqb_neq in He. rewrite IH. split.
      * intros H key m' [[= -> ->]|Hin]%elem_of_cons; [done|by eapply H].
      * intros H key m' Hin. apply (H key). by right.
  - rewrite IH. split.
    + intros H key m' [[=]|Hin]%elem_of_cons. by eapply H.
    + intros H key m' Hin. apply (H key). by right.
Qed.

(** When [resolveComponent] finds a mapping, it is a registered one of the
    component's type, and the first such in key order. *)
Theorem resolveComponent_first_match mappings (component : ComponentInstance) m :
  resolveComponent mappings component = ResolvedMapping m →
  mappingType m = type component
  ∧ ∃ before key after,
      mappings = before ++ (key, Some m) :: after
      ∧ ∀ key' m', (key', Some m') ∈ before → mappingType m' ≠ type component.
Proof.
  unfold resolveComponent. generalize (type component) as ty. intros ty.
  induction mappings as [|[k [m0|]] rest IH]; simpl; [done| |].
  - destruct (String.eqb (mappingType m0) ty) eqn:He.
    + intros [= ->]. apply String.eqb_eq in He. split; [done|].
      exists [], k, rest. split; [done|].
      intros key' m' Hin. by apply elem_of_nil in Hin.
    + apply String.eqb_neq in He. intros H.
      destruct (IH H) as (Hty & before & key & after & -> & Hb).
      split; [done|]. exists ((k, Some m0) :: before), key, after.
      split; [done|].
      intros key' m' [[= -> ->]|Hin]%elem_of_cons; [done|by eapply Hb].
  - intros H. destruct (IH H) as (Hty & before & key & after & -> & Hb).
    split; [done|]. exists ((k, None) :: before), key, after.
    split; [done|].
    intros key' m' [[=]|Hin]%elem_of_cons. by eapply Hb.
Qed.

Lemma resolveComponent_first_match_witness :
  let hero := {| mappingType := "hero"; mappingComponent := "HeroComponent" |} in
  let mappings :=
    [("accessDeniedMapping",
      Some {| mappingType := "accessDenied"; mappingComponent := "AccessDenied" |});
     ("unset", None);
     ("heroMapping", Some hero);
     ("heroCopy", Some {| mappingType := "hero"; mappingComponent := "Other" |})] in
  resolveComponent mappings nodeX = ResolvedMapping hero
  ∧ mappingType hero = type nodeX.
Proof.
  intros hero mappings.
  assert (H : resolveComponent mappings nodeX = ResolvedMapping hero) by reflexivity.
  split; [exact H|].
  exact (proj1 (resolveComponent_first_match mappings nodeX hero H)).
Defined.

(** * The whole access-control step *)

Lemma inTree_filterUnauthorizedComponents c' root :
  inTree c' (filterUnauthorizedComponents root) →
  ∃ c, inTree c root ∧ c' = filterChildSlots c.
Proof.
  rewrite filterUnauthorizedComponents_eq. intros [->|H].
  - exists root. split; [by left|done].
  - apply descendantOf_filterChildSlots in H as (c & Hc & ->).
    exists c. split; [right; by apply keptBelow_descendantOf|done].
Qed.

(** Every component of the tree a page renders is an annotated component
    of the tree it fetched, possibly with filtered slots. *)
Lemma inTree_enhanceAndFilter draft canvasMode session root out c' :
  enhanceAndFilter draft canvasMode session (Some root) = Some out →
  inTree c' out →
  ∃ c, inTree c root
       ∧ (c' = enhance createAccessControlEnhancer
                 {| preview := Some draft; isCanvasMode := canvasMode;
                    session := session |} c
          ∨ c' = filterChildSlots
                   (enhance createAccessControlEnhancer
                      {| preview := Some draft; isCanvasMode := canvasMode;
                         session := session |} c)).
Proof.
  unfold enhanceAndFilter. intros [= <-].
  destruct (negb (truthyFlag canvasMode)).
  - intros (c1 & (c & Hc & ->)%inTree_enhance & ->)%inTree_filterUnauthorizedComponents.
    eauto.
  - intros (c & Hc & ->)%inTree_enhance. eauto.
Qed.

(** What a component reads back with [getAuthState] is whether the request
    had a session, for every component of the rendered tree, with or
    without bypass; a component that was never annotated reads [false]. *)
Theorem getAuthState_reads_session draft canvasMode session root out c :
  enhanceAndFilter draft canvasMode session (Some root) = Some out →
  inTree c out →
  getAuthState c = bool_decide (session ≠ None)
  ∧ (∀ plain, data plain = None → getAuthState plain = false).
Proof.
  intros Hout Hc. split; [|by intros plain Hp; unfold getAuthState, authStateOf; rewrite Hp].
  destruct (inTree_enhanceAndFilter _ _ _ _ _ _ Hout Hc) as (c0 & _ & [->| ->]);
    unfold getAuthState, authStateOf;
    rewrite ?filterChildSlots_data, enhance_data; simpl;
    by destruct session.
Qed.

Lemma getAuthState_reads_session_witness :
  getAuthState (enhance createAccessControlEnhancer aliceContext nodePlain) = true
  ∧ getAuthState nodePlain = false.
Proof.
  assert (Hout : enhanceAndFilter false (Some false) (Some alice) (Some scenarioD)
                 = Some (filterUnauthorizedComponents
                           (enhance createAccessControlEnhancer aliceContext scenarioD)))
    by reflexivity.
  assert (Hin : inTree (enhance createAccessControlEnhancer aliceContext nodePlain)
                  (filterUnauthorizedComponents
                     (enhance createAccessControlEnhancer aliceContext scenarioD))).
  { right. constructor. child_in_slot "s". }
  destruct (getAuthState_reads_session _ _ _ _ _ _ Hout Hin) as [H1 H2].
  split; [exact H1|]. apply H2. reflexivity.
Defined.

(** The decision of the enhancer, by the value of [accessType]. *)
Lemma accessControlData_eq component context :
  accessControlData createAccessControlEnhancer component context
  = if truthyFlag (isCanvasMode context) then
      {| allowed := true; reason := canvas_mode |}
    else if negb (truthy (accessTypeValue component))
            || strictEqString (accessTypeValue component) "everyone" then
      {| allowed := true; reason := everyone |}
    else if strictEqString (accessTypeValue component) "users"
            && negb (truthyObject (user <$> session context)) then
      {| allowed := false; reason := requires_auth |}
    else if strictEqString (accessTypeValue component) "anonymous"
            && truthyObject (user <$> session context) then
      {| allowed := false; reason := anonymous_only |}
    else {| allowed := true; reason := authorized |}.
Proof. reflexivity. Qed.

(** With bypass off the enhancer denies a component exactly when its
    [accessType] is the string ['users'] and there is no session, or the
    string ['anonymous'] and there is one. *)
Lemma accessControlData_denied_iff component context :
  truthyFlag (isCanvasMode context) = false →
  allowed (accessControlData createAccessControlEnhancer component context) = false
  ↔ (accessTypeValue component = Some (JString "users") ∧ session context = None)
    ∨ (accessTypeValue component = Some (JString "anonymous")
       ∧ session context ≠ None).
Proof.
  intros Hoff. rewrite accessControlData_eq, Hoff.
  destruct (accessTypeValue component) as [[| | |s| |]|]; simpl;
    try (split; [done|by intros [[[=] _]|[[=] _]]]).
  - destruct b; simpl; (split; [done|by intros [[[=] _]|[[=] _]]]).
  - destruct (n =? 0)%Z; simpl; (split; [done|by intros [[[=] _]|[[=] _]]]).
  - destruct (String.eqb s "") eqn:He; simpl.
    { apply String.eqb_eq in He as ->. split; [done|by intros [[[=] _]|[[=] _]]]. }
    destruct (String.eqb s "everyone") eqn:Hev; simpl.
    { apply String.eqb_eq in Hev as ->. split; [done|by intros [[[=] _]|[[=] _]]]. }
    destruct (String.eqb s "users") eqn:Hu; simpl.
    { apply String.eqb_eq in Hu as ->. destruct (session context); simpl.
      - split; [done|]. by intros [[_ [=]]|[[=] _]].
      - split; [by left|done]. }
    destruct (String.eqb s "anonymous") eqn:Ha; simpl.
    { apply String.eqb_eq in Ha as ->. destruct (session context); simpl.
      - split; [by right|done].
      - split; [done|]. by intros [[[=] _]|[_ ?]]. }
    apply String.eqb_neq in Hu, Ha. split; [done|].
    intros [[[= ->] _]|[[= ->] _]]; done.
Qed.

(** The access badge of a component says "Everyone" exactly when, with
    bypass off, the enhancer allows the component for every visitor. *)
Theorem everyone_badge_iff_always_allowed (component : ComponentInstance) :
  label (getAccessInfo (getAccessType component)) = "Everyone"
  ↔ ∀ context, truthyFlag (isCanvasMode context) = false →
      allowed (accessControlData createAccessControlEnhancer component context) = true.
Proof.
  assert (Hbadge : label (getAccessInfo (getAccessType component)) = "Everyone"
                   ↔ accessTypeValue component ≠ Some (JString "users")
                     ∧ accessTypeValue component ≠ Some (JString "anonymous")).
  { unfold getAccessType, getAccessInfo.
    destruct (accessTypeValue component) as [[| | |s| |]|]; simpl; try done.
    destruct (String.eqb s "anonymous") eqn:Ha.
    { apply String.eqb_eq in Ha as ->. simpl. split; [done|]. by intros [_ ?]. }
    destruct (String.eqb s "users") eqn:Hu.
    { apply String.eqb_eq in Hu as ->. simpl. split; [done|]. by intros [? _]. }
    apply String.eqb_neq in Hu, Ha. simpl. split; [|done].
    intros _. split; congruence. }
  rewrite Hbadge. split.
  - intros [Hu Ha] context Hoff.
    destruct (allowed _) eqn:Hd; [done|].
    apply accessControlData_denied_iff in Hd as [[? _]|[? _]]; done.
  - intros H. split; intros Hv.
    + specialize (H anonymousContext eq_refl).
      assert (Hd : allowed (accessControlData createAccessControlEnhancer component
                              anonymousContext) = false)
        by (apply accessControlData_denied_iff; [done|by left]).
      congruence.
    + specialize (H aliceContext eq_refl).
      assert (Hd : allowed (accessControlData createAccessControlEnhancer component
                              aliceContext) = false)
        by (apply accessControlData_denied_iff; [done|by right]).
      congruence.
Qed.

Lemma filterPredicate_enhance context c :
  filterPredicate (enhance createAccessControlEnhancer context c)
  = allowed (accessControlData createAccessControlEnhancer c context).
Proof.
  unfold filterPredicate. rewrite enhance_accessControlOf.
  by destruct (allowed _).
Qed.

Lemma keptBelow_enhance context c1 p :
  keptBelow c1 (enhance createAccessControlEnhancer context p)
  ↔ ∃ c, allowedBelow context c p ∧ c1 = enhance createAccessControlEnhancer context c.
Proof.
  split.
  - intros H. remember (enhance createAccessControlEnhancer context p) as p' eqn:Hp.
    revert p Hp. induction H as [p' Hc Hk|m' p' _ IH Hm Hk]; intros p ->.
    + apply childOf_enhance in Hc as (c & Hc & ->).
      rewrite filterPredicate_enhance in Hk.
      exists c. split; [by constructor|done].
    + apply childOf_enhance in Hm as (m & Hm & ->).
      rewrite filterPredicate_enhance in Hk.
      destruct (IH m eq_refl) as (c & Hc & ->).
      exists c. split; [by econstructor|done].
  - intros (c & H & ->). induction H as [p Hc Hk|m p _ IH Hm Hk].
    + constructor; [apply childOf_enhance; eauto|by rewrite filterPredicate_enhance].
    + econstructor; [exact IH|apply childOf_enhance; eauto|].
      by rewrite filterPredicate_enhance.
Qed.

Lemma allowedBelow_allowed context c p :
  allowedBelow context c p →
  allowed (accessControlData createAccessControlEnhancer c context) = true.
Proof. by induction 1. Qed.

(** An allowed decision taken with bypass off has reason ['everyone'] or
    ['authorized']. *)
Lemma accessControlData_allowed_reason component context :
  truthyFlag (isCanvasMode context) = false →
  allowed (accessControlData createAccessControlEnhancer component context) = true →
  reason (accessControlData createAccessControlEnhancer component context) = everyone
  ∨ reason (accessControlData createAccessControlEnhancer component context)
    = authorized.
Proof.
  intros Hoff. rewrite accessControlData_eq, Hoff.
  repeat match goal with
         | |- context [if ?b then _ else _] => destruct b
         end; simpl; auto; done.
Qed.

(** With bypass off, the components found below the root of the tree a
    page renders are exactly the annotated components of the fetched tree
    whose own access decision, and that of every component above them
    below the root, allows the visitor; each of them carries a decision
    with [allowed = true] and reason ['everyone'] or ['authorized']. *)
Theorem rendered_components_are_the_allowed_ones
    draft canvasMode session root out :
  truthyFlag canvasMode = false →
  enhanceAndFilter draft canvasMode session (Some root) = Some out →
  (∀ c', descendantOf c' out
         ↔ ∃ c, allowedBelow {| preview := Some draft; isCanvasMode := canvasMode;
                                session := session |} c root
                ∧ c' = filterChildSlots
                         (enhance createAccessControlEnhancer
                            {| preview := Some draft; isCanvasMode := canvasMode;
                               session := session |} c))
  ∧ (∀ c', descendantOf c' out →
       ∃ r, accessControlOf c' = Some r ∧ allowed r = true
            ∧ (reason r = everyone ∨ reason r = authorized)).
Proof.
  intros Hoff Hout. unfold enhanceAndFilter in Hout. rewrite Hoff in Hout.
  injection Hout as <-. rewrite filterUnauthorizedComponents_eq.
  set (context := {| preview := Some draft; isCanvasMode := canvasMode;
                     session := session |}).
  assert (Hiff : ∀ c', descendantOf c'
                         (filterChildSlots (enhance createAccessControlEnhancer context root))
                 ↔ ∃ c, allowedBelow context c root
                        ∧ c' = filterChildSlots
                                 (enhance createAccessControlEnhancer context c)).
  { intros c'. rewrite descendantOf_filterChildSlots. split.
    - intros (c1 & (c & Hc & ->)%keptBelow_enhance & ->). eauto.
    - intros (c & Hc & ->). eexists. split; [|done].
      apply keptBelow_enhance. eauto. }
  split; [exact Hiff|].
  intros c' (c & Hc & ->)%Hiff.
  exists (accessControlData createAccessControlEnhancer c context).
  unfold accessControlOf. rewrite filterChildSlots_data, enhance_data.
  split; [done|].
  pose proof (allowedBelow_allowed _ _ _ Hc) as Ha. split; [exact Ha|].
  by apply accessControlData_allowed_reason.
Qed.

Lemma rendered_components_are_the_allowed_ones_witness :
  let annotate := enhance createAccessControlEnhancer anonymousContext in
  allowedBelow anonymousContext nodeB scenarioD
  ∧ descendantOf (filterChildSlots (annotate nodeB))
                 (filterUnauthorizedComponents (annotate scenarioD))
  ∧ ∃ r, accessControlOf (filterChildSlots (annotate nodeB)) = Some r
         ∧ allowed r = true ∧ (reason r = everyone ∨ reason r = authorized).
Proof.
  intros annotate.
  assert (Hout : enhanceAndFilter false (Some false) None (Some scenarioD)
                 = Some (filterUnauthorizedComponents (annotate scenarioD)))
    by reflexivity.
  assert (Hb : allowedBelow anonymousContext nodeB scenarioD).
  { apply allowed_step with nodeA.
    - constructor; [child_in_slot "inner"|reflexivity].
    - child_in_slot "s".
    - reflexivity. }
  destruct (rendered_components_are_the_allowed_ones
              false (Some false) None scenarioD _ eq_refl Hout) as [H1 H2].
  assert (Hd : descendantOf (filterChildSlots (annotate nodeB))
                 (filterUnauthorizedComponents (annotate scenarioD))).
  { apply H1. exists nodeB. split; [exact Hb|reflexivity]. }
  split_and!; [exact Hb|exact Hd|exact (H2 _ Hd)].
Defined.

(** The access-control step never adds, drops or renames a slot of the
    root, and leaves its [type] and [parameters] alone: each slot array is
    the annotated one under bypass, and the filtered annotated one
    otherwise (possibly empty, but still there). *)
Theorem access_control_step_keeps_root_slots
    draft canvasMode session root out :
  enhanceAndFilter draft canvasMode session (Some root) = Some out →
  type out = type root
  ∧ parameters out = parameters root
  ∧ ∀ slotName,
      slotOf slotName out
      = (λ slot,
           let annotated :=
             map (enhance createAccessControlEnhancer
                    {| preview := Some draft; isCanvasMode := canvasMode;
                       session := session |}) slot in
           if truthyFlag canvasMode then annotated else filterSlot annotated)
        <$> slotOf slotName root.
Proof.
  unfold enhanceAndFilter. intros [= <-].
  destruct (truthyFlag canvasMode); simpl.
  - rewrite enhance_type, enhance_parameters. split_and!; [done..|].
    intros k. unfold slotOf. rewrite enhance_slots.
    destruct (slots root) as [m|]; [|done]. simpl. by rewrite lookup_fmap.
  - rewrite filterUnauthorizedComponents_eq.
    rewrite filterChildSlots_type, filterChildSlots_parameters,
      enhance_type, enhance_parameters.
    split_and!; [done..|].
    intros k. unfold slotOf. rewrite filterChildSlots_slots, enhance_slots.
    destruct (slots root) as [m|]; [|done]. simpl.
    rewrite !lookup_fmap. by destruct (m !! k).
Qed.

Lemma access_control_step_keeps_root_slots_witness :
  slotOf "main" (filterUnauthorizedComponents
                   (enhance createAccessControlEnhancer anonymousContext scenarioA))
  = Some [].
Proof.
  destruct (access_control_step_keeps_root_slots false (Some false) None scenarioA
              (filterUnauthorizedComponents
                 (enhance createAccessControlEnhancer anonymousContext scenarioA))
              eq_refl) as (_ & _ & H).
  rewrite H. reflexivity.
Defined.

(** Annotation and filtering never change which React component a node
    resolves to: every component of the rendered tree resolves like a
    component of the fetched tree with the same parameters. *)
Theorem resolution_unchanged_by_access_control
    mappings draft canvasMode session root out c' :
  enhanceAndFilter draft canvasMode session (Some root) = Some out →
  inTree c' out →
  ∃ c, inTree c root
       ∧ resolveComponent mappings c' = resolveComponent mappings c
       ∧ parameters c' = parameters c.
Proof.
  intros Hout Hc.
  destruct (inTree_enhanceAndFilter _ _ _ _ _ _ Hout Hc) as (c & Hin & [->| ->]);
    exists c; unfold resolveComponent;
    rewrite ?filterChildSlots_type, ?filterChildSlots_parameters,
      enhance_type, enhance_parameters; done.
Qed.

Lemma resolution_unchanged_by_access_control_witness :
  let mappings :=
    [("heroMapping",
      Some {| mappingType := "hero"; mappingComponent := "HeroComponent" |})] in
  ∃ c, inTree c scenarioA
       ∧ resolveComponent mappings
           (enhance createAccessControlEnhancer canvasContext nodeX)
         = resolveComponent mappings c
       ∧ parameters (enhance createAccessControlEnhancer canvasContext nodeX)
         = parameters c.
Proof.
  intros mappings.
  apply (resolution_unchanged_by_access_control mappings true (Some true) None
           scenarioA (enhance createAccessControlEnhancer canvasContext scenarioA)).
  - reflexivity.
  - right. constructor. child_in_slot "main".
Defined.

(** * The CMS page *)

(** The page-level check of [CMSPage], by the enhancer's decision for the
    root: with Canvas mode off and a composition to show, the page either
    redirects to the access-denied page (when the decision denies) or
    renders (when it allows). *)
Lemma CMSPage_composition_route encodeURIComponent p searchParams draft session root :
  CMSPage_isCanvasMode draft searchParams = false →
  CMSPage encodeURIComponent p searchParams draft session (RouteComposition (Some root))
  = if allowed (accessControlData createAccessControlEnhancer root
                  {| preview := Some draft; isCanvasMode := Some false;
                     session := session |})
    then PageRender (CMSPage_composition draft searchParams session (Some root))
    else PageRedirect
           ("/" ++ CMSPage_locale searchParams ++ "/access-denied?reason="
            ++ match session with Some _ => "anonymous" | None => "users" end ++ "&from="
            ++ encodeURIComponent
                 (CMSPage_currentPath (CMSPage_locale searchParams) p))%string.
Proof.
  intros Hoff. unfold CMSPage. rewrite Hoff, accessControlData_eq. simpl.
  destruct (accessTypeValue root) as [[| | |s| |]|]; simpl; try done.
  - by destruct b.
  - by destruct (n =? 0)%Z.
  - destruct (String.eqb s "users") eqn:Hu.
    { apply String.eqb_eq in Hu as ->. by destruct session. }
    destruct (String.eqb s "anonymous") eqn:Ha.
    { apply String.eqb_eq in Ha as ->. by destruct session. }
    simpl. by destruct (negb (negb (s =? "")) || (s =? "everyone"))%string,
      (negb (CMSPage_isCanvasMode draft searchParams)).
Qed.

(** With Canvas mode off, [CMSPage] redirects a composition route to the
    access-denied page exactly when the enhancer denies the root
    composition, with [reason=users] for a visitor without a session and
    [reason=anonymous] for one with a session. *)
Theorem CMSPage_redirects_iff_root_denied
    encodeURIComponent p searchParams draft session root :
  CMSPage_isCanvasMode draft searchParams = false →
  (allowed (accessControlData createAccessControlEnhancer root
              {| preview := Some draft; isCanvasMode := Some false;
                 session := session |}) = false
   ↔ ∃ url, CMSPage encodeURIComponent p searchParams draft session
              (RouteComposition (Some root)) = PageRedirect url)
  ∧ ∀ url, CMSPage encodeURIComponent p searchParams draft session
             (RouteComposition (Some root)) = PageRedirect url →
           url = ("/" ++ CMSPage_locale searchParams ++ "/access-denied?reason="
                  ++ match session with Some _ => "anonymous" | None => "users" end ++ "&from="
                  ++ encodeURIComponent
                       (CMSPage_currentPath (CMSPage_locale searchParams) p))%string.
Proof.
  intros Hoff. rewrite (CMSPage_composition_route _ _ _ _ _ _ Hoff).
  destruct (allowed _).
  - split; [|done]. split; [done|]. by intros [url ?].
  - split; [|by intros url [= <-]]. split; [eauto|done].
Qed.

Lemma CMSPage_redirects_iff_root_denied_witness :
  CMSPage (λ s, s) (Some (PathArray ["about"; "team"])) None false None
          (RouteComposition (Some nodeX))
  = PageRedirect "/en/access-denied?reason=users&from=/en/cms/about/team".
Proof.
  destruct (CMSPage_redirects_iff_root_denied (λ s, s)
              (Some (PathArray ["about"; "team"])) None false None nodeX eq_refl)
    as [H1 H2].
  destruct (proj1 H1 eq_refl) as [url Hurl].
  rewrite Hurl. f_equal. exact (H2 url Hurl).
Defined.

(** With Canvas mode off, nothing in the tree [CMSPage] renders is denied:
    the root and every component below it carry a decision with
    [allowed = true]. *)
Theorem CMSPage_renders_no_denied_component
    encodeURIComponent p searchParams draft session route out c :
  CMSPage_isCanvasMode draft searchParams = false →
  CMSPage encodeURIComponent p searchParams draft session route
  = PageRender (Some out) →
  inTree c out →
  ∃ r, accessControlOf c = Some r ∧ allowed r = true.
Proof.
  intros Hoff Hrender Hc.
  destruct route as [[target|]|[root|]|].
  - unfold CMSPage in Hrender. by destruct (truthyString (Some target)).
  - done.
  - rewrite (CMSPage_composition_route _ _ _ _ _ _ Hoff) in Hrender.
    destruct (allowed _) eqn:Hroot; [|done].
    unfold CMSPage_composition, enhanceAndFilter in Hrender.
    rewrite Hoff in Hrender. simpl in Hrender. injection Hrender as <-.
    rewrite filterUnauthorizedComponents_eq in Hc. destruct Hc as [->|Hc].
    + eexists. unfold accessControlOf.
      rewrite filterChildSlots_data, enhance_data. simpl. split; [reflexivity|].
      exact Hroot.
    + apply descendantOf_filterChildSlots in Hc
        as (c1 & (c0 & H0 & ->)%keptBelow_enhance & ->).
      eexists. unfold accessControlOf.
      rewrite filterChildSlots_data, enhance_data. simpl. split; [reflexivity|].
      exact (allowedBelow_allowed _ _ _ H0).
  - unfold CMSPage in Hrender. simpl in Hrender.
    repeat match type of Hrender with
           | (if ?b then _ else _) = _ => destruct b
           end; done.
  - done.
Qed.

Lemma CMSPage_renders_no_denied_component_witness :
  ∃ r, accessControlOf
         (filterUnauthorizedComponents
            (enhance createAccessControlEnhancer anonymousContext scenarioA))
       = Some r ∧ allowed r = true.
Proof.
  apply (CMSPage_renders_no_denied_component (λ s, s) None None false None
           (RouteComposition (Some scenarioA))
           (filterUnauthorizedComponents
              (enhance createAccessControlEnhancer anonymousContext scenarioA))).
  - reflexivity.
  - reflexivity.
  - by left.
Defined.

(** * The locale root page and the protected page *)

(** Only [CMSPage] checks the root's own [accessType].  With Canvas mode
    off, [HomePage] renders a composition whose root the enhancer denies,
    and the root stays in the rendered tree with its denying decision; so
    does [ProtectedCMSPage] for a visitor with a session. *)
Theorem root_accessType_not_enforced_outside_CMSPage
    searchParams draft session root :
  draft || isIncontextEditing searchParams = false →
  allowed (accessControlData createAccessControlEnhancer root
             {| preview := Some draft; isCanvasMode := Some false;
                session := session |}) = false →
  (∃ out, HomePage searchParams draft session (RouteComposition (Some root))
          = PageRender (Some out)
          ∧ denied out ∧ type out = type root ∧ parameters out = parameters root)
  ∧ (session ≠ None →
     ∃ view out, ProtectedCMSPage searchParams draft session
                   (RouteComposition (Some root)) = PageRender view
                 ∧ viewComposition view = Some out
                 ∧ denied out ∧ type out = type root
                 ∧ parameters out = parameters root).
Proof.
  intros Hoff Hdenied.
  apply orb_false_iff in Hoff as [-> Hq]. split.
  - unfold HomePage, HomePage_composition, HomePage_isCanvasMode, enhanceAndFilter.
    rewrite Hq. simpl. eexists. split; [reflexivity|].
    rewrite filterUnauthorizedComponents_eq.
    rewrite filterChildSlots_type, filterChildSlots_parameters,
      enhance_type, enhance_parameters.
    split_and!; [|done..].
    eexists. unfold accessControlOf.
    rewrite filterChildSlots_data, enhance_data. simpl.
    split; [reflexivity|exact Hdenied].
  - intros Hs. destruct session as [s|]; [|done].
    unfold ProtectedCMSPage, getDisplayUser, getCanvasMode, enhanceAndFilter.
    simpl. rewrite Hq. simpl. eexists _, _. split_and!; [reflexivity..| | |].
    + eexists. rewrite filterUnauthorizedComponents_eq. unfold accessControlOf.
      rewrite filterChildSlots_data, enhance_data. simpl.
      split; [reflexivity|exact Hdenied].
    + by rewrite filterUnauthorizedComponents_eq, filterChildSlots_type, enhance_type.
    + by rewrite filterUnauthorizedComponents_eq, filterChildSlots_parameters,
        enhance_parameters.
Qed.

Lemma root_accessType_not_enforced_outside_CMSPage_witness :
  ∃ out, HomePage None false None (RouteComposition (Some nodeX))
         = PageRender (Some out)
         ∧ denied out ∧ type out = type nodeX ∧ parameters out = parameters nodeX.
Proof.
  exact (proj1 (root_accessType_not_enforced_outside_CMSPage
                  None false None nodeX eq_refl eq_refl)).
Defined.

(** [getDisplayUser]: a real session always wins and is never replaced by
    the mock user; the mock user is shown exactly when there is no
    session, Canvas mode is on and the path is a protected one; and
    nobody is displayed exactly when there is no session and no mock. *)
Theorem getDisplayUser_mock_only_without_session
    (context : option DisplayUserContext) (serverDraftMode : bool)
    (session : option Session) :
  (∀ s, session = Some s →
     displayUser (getDisplayUser context serverDraftMode session) = Some (user s)
     ∧ truthyFlag (isShowingMockUser (getDisplayUser context serverDraftMode session))
       = false)
  ∧ (truthyFlag (isShowingMockUser (getDisplayUser context serverDraftMode session))
     = true
     ↔ session = None
       ∧ truthyFlag (getCanvasMode (canvasFields <$> context) serverDraftMode) = true
       ∧ isOnProtectedRoute context = true)
  ∧ (displayUser (getDisplayUser context serverDraftMode session) = Some MOCK_USER
     ∧ session = None
     ↔ truthyFlag (isShowingMockUser (getDisplayUser context serverDraftMode session))
       = true)
  ∧ (displayUser (getDisplayUser context serverDraftMode session) = None
     ↔ session = None
       ∧ truthyFlag (isShowingMockUser (getDisplayUser context serverDraftMode session))
         = false).
Proof.
  unfold getDisplayUser. simpl.
  destruct (getCanvasMode (canvasFields <$> context) serverDraftMode) as [[]|],
    (isOnProtectedRoute context), session as [s|]; simpl;
    split_and!; try (intros ? [= <-]); try done;
    try (split; [by intros [? ?]|done]);
    try (split; [done|]);
    try (by intros [? ?]); try (by intros (? & ? & ?)).
Qed.

(** [ProtectedCMSPage] sends a composition route to the login page exactly
    when there is no session and Canvas mode (draft mode together with the
    editor flag) is off.  Whenever it renders, somebody is displayed: the
    session's user, or, without a session, the mock user over the
    unfiltered annotated composition. *)
Theorem ProtectedCMSPage_login_or_user searchParams draft session composition :
  (ProtectedCMSPage searchParams draft session (RouteComposition composition)
   = PageRedirect "/login"
   ↔ session = None ∧ draft && isIncontextEditing searchParams = false)
  ∧ (∀ url, ProtectedCMSPage searchParams draft session (RouteComposition composition)
            = PageRedirect url → url = "/login")
  ∧ (∀ view, ProtectedCMSPage searchParams draft session (RouteComposition composition)
             = PageRender view →
       viewDisplayUser view ≠ None
       ∧ (∀ s, session = Some s →
            viewDisplayUser view = Some (user s)
            ∧ truthyFlag (viewIsShowingMockUser view) = false)
       ∧ (session = None →
            viewDisplayUser view = Some MOCK_USER
            ∧ viewIsShowingMockUser view = Some true
            ∧ viewComposition view
              = enhance createAccessControlEnhancer
                  {| preview := Some true; isCanvasMode := Some true;
                     session := None |} <$> composition)).
Proof.
  unfold ProtectedCMSPage, getDisplayUser, getCanvasMode, enhanceAndFilter.
  simpl.
  destruct draft, (isIncontextEditing searchParams), session as [s|]; simpl;
    split_and!.
  all: try (by intros url [= <-]).
  all: try (split; [done|by intros [? ?]]).
  all: try (split; [done|by intros [[=] ?]]).
  all: try (split; done).
  all: intros view [= <-]; simpl; split_and!; try done.
  all: try (by intros ? [= <-]).
  all: intros _; split_and!; try done; by destruct composition.
Qed.

(** A redirect route redirects before any access check, a redirect without
    a target and any other route are not found, on all three pages; none
    of them reaches the access-control step. *)
Theorem route_type_is_handled_first
    encodeURIComponent p searchParams draft session target :
  let outcome {A} : PageResult A :=
    match target with
    | Some url => if String.eqb url "" then PageNotFound else PageRedirect url
    | None => PageNotFound
    end in
  CMSPage encodeURIComponent p searchParams draft session (RouteRedirect target)
  = outcome
  ∧ HomePage searchParams draft session (RouteRedirect target) = outcome
  ∧ ProtectedCMSPage searchParams draft session (RouteRedirect target) = outcome
  ∧ CMSPage encodeURIComponent p searchParams draft session RouteNotFound
    = PageNotFound
  ∧ HomePage searchParams draft session RouteNotFound = PageNotFound
  ∧ ProtectedCMSPage searchParams draft session RouteNotFound = PageNotFound.
Proof.
  unfold CMSPage, HomePage, ProtectedCMSPage. simpl.
  destruct target as [url|]; [|done]. simpl.
  by destruct (String.eqb url "").
Qed.

(** * Middleware *)

Lemma startsWith_slash p :
  startsWith p "/" = true → ∃ rest, p = ("/" ++ rest)%string.
Proof.
  destruct p as [|a rest]; [done|]. unfold startsWith. cbn [String.prefix].
  match goal with
  | |- context [Ascii.ascii_dec ?x a] =>
      destruct (Ascii.ascii_dec x a) as [<-|]; [by exists rest|done]
  end.
Qed.

(** A locale redirect is never followed by another one: the path the
    middleware redirects to carries the default locale and passes. *)
Theorem middleware_redirect_settles (pathname target : string) :
  startsWith pathname "/" = true →
  Middleware.middlewareHandler pathname = Middleware.Redirect target →
  Middleware.middlewareHandler target = Middleware.Next
  ∧ (target = "/en" ∨ target = ("/en" ++ pathname)%string).
Proof.
  intros [rest ->]%startsWith_slash. unfold Middleware.middlewareHandler.
  destruct (String.eqb ("/" ++ rest) "/")%string eqn:Hroot.
  - intros [= <-]. split; [reflexivity|by left].
  - destruct (_ && _); [|done]. intros [= <-]. split; [|by right].
    simpl. by destruct rest.
Qed.

Lemma middleware_redirect_settles_witness :
  Middleware.middlewareHandler "/about" = Middleware.Redirect "/en/about"
  ∧ Middleware.middlewareHandler "/en/about" = Middleware.Next.
Proof.
  assert (H : Middleware.middlewareHandler "/about" = Middleware.Redirect "/en/about")
    by reflexivity.
  split; [exact H|].
  exact (proj1 (middleware_redirect_settles "/about" "/en/about" eq_refl H)).
Defined.

(** The [authorized] callback turns a request away only on a path that
    contains [/cms-protected], and only when there is no token, no draft
    mode cookie, and not both the editor flag and a [secret] equal to the
    configured preview secret; in particular the editor flag alone, or any
    [secret] while no preview secret is configured, does not open a
    protected path. *)
Theorem authorized_rejects_iff
    previewSecret pathname searchParams draftModeCookie token :
  Middleware.authorized previewSecret pathname searchParams draftModeCookie token
  = false
  ↔ includes pathname "/cms-protected" = true
    ∧ token = None
    ∧ draftModeCookie = None
    ∧ ¬ (Middleware.searchParamsGet searchParams "is_incontext_editing_mode"
         = Some "true"
         ∧ ∃ secret, Middleware.searchParamsGet searchParams "secret" = Some secret
                     ∧ previewSecret = Some secret).
Proof.
  unfold Middleware.authorized.
  destruct draftModeCookie as [cookie|]; simpl.
  { split; [done|]. by intros (_ & _ & [=] & _). }
  destruct (Middleware.searchParamsGet searchParams "is_incontext_editing_mode")
    as [flag|]; simpl.
  - destruct (String.eqb flag "true") eqn:Hflag; simpl.
    + apply String.eqb_eq in Hflag as ->.
      destruct (Middleware.searchParamsGet searchParams "secret") as [given|],
        previewSecret as [expected|]; simpl.
      * destruct (String.eqb given expected) eqn:Hs.
        { apply String.eqb_eq in Hs as ->. split; [done|].
          intros (_ & _ & _ & Hn). destruct Hn. eauto. }
        apply String.eqb_neq in Hs.
        destruct (includes pathname "/cms-protected"), token; simpl;
          (split; [try done|by intros (? & ? & _)]).
        intros _. split_and!; try done. intros (_ & s & [= <-] & [= <-]). done.
      * destruct (includes pathname "/cms-protected"), token; simpl;
          (split; [try done|by intros (? & ? & _)]).
        intros _. split_and!; try done. by intros (_ & s & _ & [=]).
      * destruct (includes pathname "/cms-protected"), token; simpl;
          (split; [try done|by intros (? & ? & _)]).
        intros _. split_and!; try done. by intros (_ & s & [=] & _).
      * destruct (includes pathname "/cms-protected"), token; simpl;
          (split; [try done|by intros (? & ? & _)]).
        intros _. split_and!; try done. by intros (_ & s & [=] & _).
    + apply String.eqb_neq in Hflag.
      destruct (includes pathname "/cms-protected"), token; simpl;
        (split; [try done|by intros (? & ? & _)]).
      intros _. split_and!; try done. intros ([= ->] & _). done.
  - destruct (includes pathname "/cms-protected"), token; simpl;
      (split; [try done|by intros (? & ? & _)]).
    intros _. split_and!; try done. by intros ([=] & _).
Qed.

(** * Locale helper *)

Lemma includes_locale_true (locales : list string) (segment : string) :
  existsb (String.eqb segment) locales = true ↔ segment ∈ locales.
Proof.
  rewrite existsb_exists, list_elem_of_In. split.
  - by intros (x & Hx & ->%String.eqb_eq).
  - intros H. exists segment. by rewrite String.eqb_refl.
Qed.

Lemma isLocaleInPath_true locales p :
  LocaleHelper.isLocaleInPath locales p = true
  ↔ Exists (λ segment, segment ∈ locales) (pathSegments p).
Proof.
  unfold LocaleHelper.isLocaleInPath.
  rewrite existsb_exists, Exists_exists. split.
  - intros (x & Hx & H). exists x. split; [by apply list_elem_of_In|].
    by apply includes_locale_true.
  - intros (x & Hx & H). exists x. split; [by apply list_elem_of_In|].
    by apply includes_locale_true.
Qed.

Lemma orDefault_nonempty a literal : literal ≠ "" → orDefault a literal ≠ "".
Proof.
  intros Hl. unfold orDefault. destruct a as [s|]; [|done]. simpl.
  destruct (String.eqb s "") eqn:He; [done|]. by apply String.eqb_neq in He.
Qed.

(** For an array path and a supported locale, [formatPath] returns an
    array that contains a locale segment (the path itself, or the path
    with the locale in front), and formatting it again changes nothing. *)
Theorem formatPath_array_localized
    (locales : list string) (defaultLocale : string)
    (l : list string) (locale : option string) :
  orDefault locale defaultLocale ∈ locales →
  LocaleHelper.isLocaleInPath locales
    (LocaleHelper.formatPath locales defaultLocale (Some (PathArray l)) locale) = true
  ∧ LocaleHelper.formatPath locales defaultLocale
      (Some (LocaleHelper.formatPath locales defaultLocale (Some (PathArray l)) locale))
      locale
    = LocaleHelper.formatPath locales defaultLocale (Some (PathArray l)) locale
  ∧ (LocaleHelper.formatPath locales defaultLocale (Some (PathArray l)) locale
     = PathArray l
     ∨ LocaleHelper.formatPath locales defaultLocale (Some (PathArray l)) locale
       = PathArray (orDefault locale defaultLocale :: l)).
Proof.
  intros Hloc. unfold LocaleHelper.formatPath. simpl.
  destruct (LocaleHelper.isLocaleInPath locales (PathArray l)) eqn:Hin.
  - simpl. rewrite Hin. split_and!; [done|done|by left].
  - assert (Hnew : LocaleHelper.isLocaleInPath locales
                     (PathArray (orDefault locale defaultLocale :: l)) = true).
    { apply isLocaleInPath_true. simpl. by left. }
    simpl. rewrite Hnew. split_and!; [done|done|by right].
Qed.

Lemma formatPath_array_localized_witness :
  LocaleHelper.formatPath ["en"; "fr"] "en" (Some (PathArray ["about"])) (Some "fr")
  = PathArray ["fr"; "about"]
  ∧ LocaleHelper.formatPath ["en"; "fr"] "en" (Some (PathArray ["fr"; "about"]))
      (Some "fr")
    = PathArray ["fr"; "about"].
Proof.
  assert (Hloc : orDefault (Some "fr") "en" ∈ ["en"; "fr"]).
  { vm_compute. right. left. }
  destruct (formatPath_array_localized ["en"; "fr"] "en" ["about"] (Some "fr") Hloc)
    as (_ & H & _).
  split; [reflexivity|exact H].
Defined.

(** A string path is only recognised as localised when the whole string
    is a locale: any other non-empty string gets the locale put in front,
    also one that already starts with a locale segment.  A missing or
    empty path becomes the locale alone, an empty array the array of the
    locale alone. *)
Theorem formatPath_string_paths
    (locales : list string) (defaultLocale : string)
    (s : string) (locale : option string) :
  s ≠ "" →
  (s ∉ locales →
   LocaleHelper.formatPath locales defaultLocale (Some (PathString s)) locale
   = PathString (orDefault locale defaultLocale ++ "/" ++ s)%string)
  ∧ (s ∈ locales →
     LocaleHelper.formatPath locales defaultLocale (Some (PathString s)) locale
     = PathString s)
  ∧ LocaleHelper.formatPath locales defaultLocale None locale
    = PathString (orDefault locale defaultLocale)
  ∧ LocaleHelper.formatPath locales defaultLocale (Some (PathString "")) locale
    = PathString (orDefault locale defaultLocale)
  ∧ LocaleHelper.formatPath locales defaultLocale (Some (PathArray [])) locale
    = PathArray [orDefault locale defaultLocale].
Proof.
  intros Hs. apply String.eqb_neq in Hs.
  unfold LocaleHelper.formatPath. simpl. rewrite Hs. simpl.
  split_and!; try done.
  - intros Hn.
    destruct (LocaleHelper.isLocaleInPath locales (PathString s)) eqn:Hin; [|done].
    apply isLocaleInPath_true in Hin. simpl in Hin.
    apply Exists_cons in Hin as [?|Hin]; [done|]. by apply Exists_nil in Hin.
  - intros Hin.
    assert (H : LocaleHelper.isLocaleInPath locales (PathString s) = true).
    { apply isLocaleInPath_true. simpl. by left. }
    by rewrite H.
Qed.

Lemma formatPath_string_paths_witness :
  LocaleHelper.formatPath ["en"; "fr"] "en" (Some (PathString "en/about")) (Some "en")
  = PathString "en/en/about".
Proof.
  destruct (formatPath_string_paths ["en"; "fr"] "en" "en/about" (Some "en"))
    as (H & _).
  - discriminate.
  - apply H. not_in_literal.
Defined.

(** The path [CMSPage] asks Uniform for is the route path behind
    ["cms"], with the locale in front unless one of those segments is
    itself a locale code.  The route path is the array as it is, the one
    segment of a non-empty string, and nothing for a missing or empty
    path.  The locale is the [locale] query parameter when that is a
    non-empty string, and ["en"] otherwise (absent, empty or repeated);
    it is never the empty string. *)
Theorem CMSPage_uniformPath_cases
    (locales : list string) (defaultLocale : string)
    (p : option PathParam) (searchParams : option (gmap string SearchParamValue)) :
  (Forall (λ segment, segment ∉ locales) (CMSPage_modifiedPath p) →
   LocaleHelper.CMSPage_uniformPath locales defaultLocale p searchParams
   = PathArray (CMSPage_locale searchParams :: CMSPage_modifiedPath p))
  ∧ (Exists (λ segment, segment ∈ locales) (CMSPage_modifiedPath p) →
     LocaleHelper.CMSPage_uniformPath locales defaultLocale p searchParams
     = PathArray (CMSPage_modifiedPath p))
  ∧ CMSPage_modifiedPath p
    = "cms" :: match p with
               | Some (PathArray l) => l
               | Some (PathString s) => if bool_decide (s = "") then [] else [s]
               | None => []
               end
  ∧ CMSPage_locale searchParams
    = match searchParams ≫= (.!! "locale") with
      | Some (ParamString s) => if bool_decide (s = "") then "en" else s
      | Some (ParamArray _) => "en"
      | None => "en"
      end
  ∧ CMSPage_locale searchParams ≠ "".
Proof.
  assert (Hne : CMSPage_locale searchParams ≠ "")
    by (by apply orDefault_nonempty).
  unfold LocaleHelper.CMSPage_uniformPath, LocaleHelper.formatPath. simpl.
  split_and!.
  - intros Hall.
    destruct (LocaleHelper.isLocaleInPath locales (PathArray (CMSPage_modifiedPath p)))
      eqn:Hin.
    + apply isLocaleInPath_true in Hin. simpl in Hin.
      apply Exists_exists in Hin as (x & Hx & Hl).
      rewrite Forall_forall in Hall. by destruct (Hall x Hx).
    + f_equal. f_equal.
      destruct (String.eqb (CMSPage_locale searchParams) "") eqn:Ht; [|done].
      by apply String.eqb_eq in Ht.
  - intros Hex. apply (isLocaleInPath_true locales (PathArray _)) in Hex.
    by rewrite Hex.
  - destruct p as [[s|l]|]; simpl; [|done..].
    case_bool_decide as Hs.
    + subst s. done.
    + apply String.eqb_neq in Hs. by rewrite Hs.
  - unfold CMSPage_locale.
    destruct (searchParams ≫= (.!! "locale")) as [[s|l]|]; simpl; [|done..].
    case_bool_decide as Hs.
    + subst s. done.
    + apply String.eqb_neq in Hs. by rewrite Hs.
  - exact Hne.
Qed.

(** /fr/cms/about/team?locale=fr, the same without the query parameter,
    a string path, and a page whose slug is a locale code. *)
Lemma CMSPage_uniformPath_cases_witness :
  LocaleHelper.CMSPage_uniformPath ["en"; "fr"] "en"
    (Some (PathArray ["about"; "team"]))
    (Some {[ "locale" := ParamString "fr" ]})
  = PathArray ["fr"; "cms"; "about"; "team"]
  ∧ LocaleHelper.CMSPage_uniformPath ["en"; "fr"] "en"
      (Some (PathArray ["about"; "team"])) None
    = PathArray ["en"; "cms"; "about"; "team"]
  ∧ LocaleHelper.CMSPage_uniformPath ["en"; "fr"] "en"
      (Some (PathString "about")) (Some {[ "locale" := ParamArray ["fr"; "en"] ]})
    = PathArray ["en"; "cms"; "about"]
  ∧ LocaleHelper.CMSPage_uniformPath ["en"; "fr"] "en"
      (Some (PathArray ["fr"])) None
    = PathArray ["cms"; "fr"].
Proof.
  destruct (CMSPage_uniformPath_cases ["en"; "fr"] "en"
              (Some (PathArray ["about"; "team"]))
              (Some {[ "locale" := ParamString "fr" ]})) as (H0 & _ & Hp0 & Hl0 & _).
  destruct (CMSPage_uniformPath_cases ["en"; "fr"] "en"
              (Some (PathArray ["about"; "team"])) None) as (H1 & _ & Hp1 & Hl1 & _).
  destruct (CMSPage_uniformPath_cases ["en"; "fr"] "en"
              (Some (PathString "about"))
              (Some {[ "locale" := ParamArray ["fr"; "en"] ]}))
    as (H2 & _ & Hp2 & Hl2 & _).
  destruct (CMSPage_uniformPath_cases ["en"; "fr"] "en"
              (Some (PathArray ["fr"])) None) as (_ & H3 & _).
  split_and!.
  - rewrite H0, Hp0, Hl0; [reflexivity|].
    rewrite Hp0. repeat (constructor; [not_in_literal|]). constructor.
  - rewrite H1, Hp1, Hl1; [reflexivity|].
    rewrite Hp1. repeat (constructor; [not_in_literal|]). constructor.
  - rewrite H2, Hp2, Hl2; [reflexivity|].
    rewrite Hp2. simpl. repeat (constructor; [not_in_literal|]). constructor.
  - apply H3. right. left. right. left.
Defined.

(** * Authentication callbacks *)

(** The provider recorded by the [jwt] callback at sign-in survives the
    later calls (which come without account and profile) and is what the
    [session] callback hands to the application; the other claims of the
    token are never touched. *)
Theorem provider_recorded_at_sign_in_reaches_session
    (token : Auth.JWT) (account : Auth.Account) (profile : option Auth.Profile)
    (s : Session) :
  Auth.jwt (Auth.jwt token (Some account) profile) None None
  = Auth.jwt token (Some account) profile
  ∧ provider (user (Auth.session s (Auth.jwt (Auth.jwt token (Some account) profile)
                                      None None)))
    = Some (Auth.accountProvider account)
  ∧ accountId (user (Auth.session s (Auth.jwt (Auth.jwt token (Some account) profile)
                                       None None)))
    = Some (Auth.providerAccountId account)
  ∧ Auth.claims (Auth.jwt token (Some account) profile) = Auth.claims token
  ∧ Auth.profileImage (Auth.jwt token (Some account) profile)
    = match profile with
      | Some p => if truthyString (Auth.profilePicture p) then Auth.profilePicture p
                  else Auth.avatar_url p
      | None => Auth.profileImage token
      end.
Proof. by destruct profile. Qed.

(** The [session] callback keeps the user's name and email and the expiry,
    never replaces a non-empty image, and otherwise takes the token's
    profile image (or none when that is empty too).  The access decision
    of the enhancer does not depend on what the callback changed, nor on
    anything in the session but its presence. *)
Theorem session_callback_keeps_identity
    (s : Session) (token : Auth.JWT) :
  name (user (Auth.session s token)) = name (user s)
  ∧ email (user (Auth.session s token)) = email (user s)
  ∧ expires (Auth.session s token) = expires s
  ∧ image (user (Auth.session s token))
    = (if truthyString (image (user s)) then image (user s)
       else if truthyString (Auth.profileImage token) then Auth.profileImage token
       else None)
  ∧ (∀ component draft canvasMode,
       accessControlData createAccessControlEnhancer component
         {| preview := draft; isCanvasMode := canvasMode;
            session := Some (Auth.session s token) |}
       = accessControlData createAccessControlEnhancer component
           {| preview := draft; isCanvasMode := canvasMode; session := Some s |})
  ∧ (∀ component draft draft' canvasMode s',
       accessControlData createAccessControlEnhancer component
         {| preview := draft; isCanvasMode := canvasMode; session := Some s' |}
       = accessControlData createAccessControlEnhancer component
           {| preview := draft'; isCanvasMode := canvasMode; session := Some s |})
  ∧ isAuthenticated
      (authStateData createAccessControlEnhancer
         {| preview := None; isCanvasMode := None;
            session := Some (Auth.session s token) |}) = true.
Proof.
  split_and!; try done.
  unfold Auth.session, orString. simpl.
  destruct (truthyString (image (user s))) eqn:Hi; simpl.
  - by rewrite Hi.
  - by destruct (truthyString (Auth.profileImage token)) eqn:Hp; rewrite ?Hp.
Qed.

(** Paths that already carry a locale, and the non-localised routes
    ([/api], [/_next], [/login], [/playground]), are never redirected by
    the locale handler, whatever follows the prefix; the bare root goes to
    the default locale. *)
Theorem localized_and_internal_paths_pass (rest : string) :
  Forall (λ prefix, Middleware.middlewareHandler (prefix ++ rest)%string
                    = Middleware.Next)
         ["/en/"; "/fr/"; "/api"; "/_next"; "/login"; "/playground"]
  ∧ Middleware.middlewareHandler "/en" = Middleware.Next
  ∧ Middleware.middlewareHandler "/fr" = Middleware.Next
  ∧ Middleware.middlewareHandler "/" = Middleware.Redirect "/en".
Proof.
  split; [|done].
  repeat (constructor; [unfold Middleware.middlewareHandler; simpl;
                        try reflexivity; by destruct rest|]).
  constructor.
Qed.
